(** * Raylet bootstrap, acceptors and cluster registration

    A shallow embedding of [src/ray/raylet/raylet.cc]: the protocol name
    table builder [GenerateEnumNames], the three accept handlers of the
    [Raylet] object, its constructor and [RegisterGcs].

    Conventions.
    - C++ [int] and [size_t] values are integers of [Z]; conversions and
      unsigned arithmetic are written with an explicit [mod].
    - [std::vector<std::string>] is a [list string]; [push_back] appends at
      the end and raises [std::length_error] at [max_size()].
    - A [const char *const *] is the array it points to, a
      [list (option string)] where [None] is [nullptr]; reading past the
      array is undefined behaviour and is reported as [OutOfBounds].
    - Effects on the io_service, on the created connections and the calls
      to the external subsystems are recorded in a [World]. *)

From Stdlib Require Import ZArith List String Bool Lia Permutation.
Import ListNotations.

Local Open Scope string_scope.
Local Open Scope list_scope.
Local Open Scope Z_scope.

(** ** Status values

    Modelled from the spec: [ray::Status] is declared in
    [ray/common/status.h], which is not part of this file; the registrar
    returns "Result<(), Error>", so a status is either OK or an error with
    its code and message. *)

Inductive Status : Type :=
| Status_OK
| Status_Error (code : Z) (msg : string).

Definition ok (s : Status) : bool :=
  match s with
  | Status_OK => true
  | Status_Error _ _ => false
  end.

(** ** Results of a computation that may stop the process *)

Inductive failure : Type :=
| CheckFailed (msg : string)  (* a RAY_CHECK did not hold: the process aborts *)
| BadStatus (s : Status)      (* a RAY_CHECK_OK met a non-ok status: the process aborts *)
| LengthError                 (* std::length_error raised by push_back *)
| OutOfBounds                 (* read past the end of a raw array *)
| OutOfFuel.                  (* the loop budget of the model ran out *)

Inductive outcome (A : Type) : Type :=
| Ok (a : A)
| Stop (f : failure).

Arguments Ok {A} a.
Arguments Stop {A} f.

Definition obind {A B : Type} (m : outcome A) (k : A -> outcome B) : outcome B :=
  match m with
  | Ok a => k a
  | Stop f => Stop f
  end.

Declare Scope outcome_scope.
Delimit Scope outcome_scope with outcome.
Notation "x <- m ;; k" := (obind m (fun x => k))
  (at level 61, m at next level, right associativity) : outcome_scope.
Local Open Scope outcome_scope.

(** ** Machine integers *)

Definition int_range (z : Z) : Prop := - 2 ^ 31 <= z < 2 ^ 31.

Definition size_t_modulus : Z := 2 ^ 64.

(** [static_cast<size_t>(z)] and the result of a [size_t] operation. *)
Definition to_size_t (z : Z) : Z := z mod size_t_modulus.

(** ** The protocol name table builder *)

Definition EmptyMessageType : string := "EmptyMessageType".

Definition vector_string := list string.

Definition size (v : vector_string) : Z := Z.of_nat (List.length v).

Section ProtocolTableBuilder.

(** [std::vector<std::string>::max_size()] of the platform; the standard
    library header is not part of the repository. *)
Variable max_size : Z.

Definition push_back (v : vector_string) (s : string) : outcome vector_string :=
  if size v <? max_size then Ok (v ++ [s]) else Stop LengthError.

(** [for (int i = 0; i < start_index; ++i) enum_names.push_back("EmptyMessageType");]
    run for its [Z.to_nat start_index] iterations. *)
Fixpoint push_placeholders (iterations : nat) (enum_names : vector_string)
  : outcome vector_string :=
  match iterations with
  | O => Ok enum_names
  | S n =>
      enum_names' <- push_back enum_names EmptyMessageType ;;
      push_placeholders n enum_names'
  end.

(** [while (true) { name = enum_names_ptr[i]; if (name == nullptr) break;
    enum_names.push_back(name); i++; }] with [size_t i]. *)
Fixpoint copy_names (fuel : nat) (enum_names_ptr : list (option string))
         (i : Z) (enum_names : vector_string) : outcome vector_string :=
  match fuel with
  | O => Stop OutOfFuel
  | S fuel' =>
      match nth_error enum_names_ptr (Z.to_nat i) with
      | None => Stop OutOfBounds
      | Some None => Ok enum_names
      | Some (Some name) =>
          enum_names' <- push_back enum_names name ;;
          copy_names fuel' enum_names_ptr (to_size_t (i + 1)) enum_names'
      end
  end.

(** [RAY_CHECK(cond) << msg]. *)
Definition RAY_CHECK (cond : bool) (msg : string) : outcome unit :=
  if cond then Ok tt else Stop (CheckFailed msg).

Definition GenerateEnumNames (fuel : nat) (enum_names_ptr : list (option string))
           (start_index end_index : Z) : outcome vector_string :=
  enum_names <- push_placeholders (Z.to_nat start_index) [] ;;
  enum_names <- copy_names fuel enum_names_ptr 0 enum_names ;;
  _ <- RAY_CHECK (to_size_t end_index =? to_size_t (size enum_names - 1))
                 "Message Type mismatch!" ;;
  Ok enum_names.

End ProtocolTableBuilder.

(** The index of the first null entry of a raw array, when there is one. *)
Fixpoint first_null_index (enum_names_ptr : list (option string)) : option nat :=
  match enum_names_ptr with
  | [] => None
  | None :: _ => Some O
  | Some _ :: rest => option_map S (first_null_index rest)
  end.


(** ** The world a raylet acts on *)

(** The three listening endpoints owned by the [Raylet] object. *)
Inductive Acceptor : Type :=
| acceptor_                  (* local stream endpoint at the socket name *)
| object_manager_acceptor_   (* TCP endpoint of the object manager *)
| node_manager_acceptor_.    (* TCP endpoint of the node manager *)

(** The sockets that stage the next incoming connection. *)
Inductive Socket : Type :=
| socket_
| object_manager_socket_
| node_manager_socket_.

(** The member functions bound as completion handlers by [boost::bind]. *)
Inductive AcceptHandler : Type :=
| bind_HandleAccept
| bind_HandleAcceptObjectManager
| bind_HandleAcceptNodeManager.

(** The transport a connection is instantiated at. *)
Inductive Transport : Type :=
| local_stream_protocol   (* LocalClientConnection *)
| ip_tcp.                 (* TcpClientConnection *)

(** The subsystem entry point called by a [ClientHandler] closure. *)
Inductive ClientHandler : Type :=
| node_manager_ProcessNewClient
| node_manager_ProcessNewNodeManager
| object_manager_ProcessNewClient.

(** The subsystem entry point called by a [MessageHandler] closure. *)
Inductive MessageHandler : Type :=
| node_manager_ProcessClientMessage
| node_manager_ProcessNodeManagerMessage
| object_manager_ProcessClientMessage.

(** The arguments of one [ClientConnection<T>::Create] call. *)
Record Connection : Type := {
  transport : Transport;
  client_handler : ClientHandler;
  message_handler : MessageHandler;
  moved_socket : Socket;
  debug_label : string;
  message_type_enum_names : vector_string;
  error_message_type : Z
}.

(** One pending [async_accept]: the acceptor, the staging socket and the
    handler to call on completion. *)
Definition AcceptOp : Type := (Acceptor * Socket * AcceptHandler)%type.

Definition Acceptor_eqb (a b : Acceptor) : bool :=
  match a, b with
  | acceptor_, acceptor_
  | object_manager_acceptor_, object_manager_acceptor_
  | node_manager_acceptor_, node_manager_acceptor_ => true
  | _, _ => false
  end.

Definition Socket_eqb (a b : Socket) : bool :=
  match a, b with
  | socket_, socket_
  | object_manager_socket_, object_manager_socket_
  | node_manager_socket_, node_manager_socket_ => true
  | _, _ => false
  end.

Definition AcceptHandler_eqb (a b : AcceptHandler) : bool :=
  match a, b with
  | bind_HandleAccept, bind_HandleAccept
  | bind_HandleAcceptObjectManager, bind_HandleAcceptObjectManager
  | bind_HandleAcceptNodeManager, bind_HandleAcceptNodeManager => true
  | _, _ => false
  end.

Definition AcceptOp_eqb (x y : AcceptOp) : bool :=
  let '(a, s, h) := x in
  let '(a', s', h') := y in
  Acceptor_eqb a a' && Socket_eqb s s' && AcceptHandler_eqb h h'.

(** The first occurrence of [op] taken out of the pending operations. *)
Fixpoint take_op (op : AcceptOp) (l : list AcceptOp) : option (list AcceptOp) :=
  match l with
  | [] => None
  | x :: l' =>
      if AcceptOp_eqb op x then Some l'
      else option_map (cons x) (take_op op l')
  end.

(** A C++ [double], by its IEEE 754 binary64 bit pattern. The raylet copies
    resource capacities and never computes with them. *)
Record double : Type := { bits : Z }.

(** The fields of the generated [ClientTableDataT] that [RegisterGcs]
    touches, and the client id the directory client keeps in it. The
    generated header is not part of the repository. *)
Module ClientTableDataT.
Record t : Type := {
  client_id : string;
  node_manager_address : string;
  raylet_socket_name : string;
  object_store_socket_name : string;
  object_manager_port : Z;
  node_manager_port : Z;
  resources_total_label : list string;
  resources_total_capacity : list double
}.

Definition set_node_manager_address (c : t) (v : string) : t :=
  {| client_id := client_id c; node_manager_address := v;
     raylet_socket_name := raylet_socket_name c;
     object_store_socket_name := object_store_socket_name c;
     object_manager_port := object_manager_port c;
     node_manager_port := node_manager_port c;
     resources_total_label := resources_total_label c;
     resources_total_capacity := resources_total_capacity c |}.

Definition set_raylet_socket_name (c : t) (v : string) : t :=
  {| client_id := client_id c; node_manager_address := node_manager_address c;
     raylet_socket_name := v;
     object_store_socket_name := object_store_socket_name c;
     object_manager_port := object_manager_port c;
     node_manager_port := node_manager_port c;
     resources_total_label := resources_total_label c;
     resources_total_capacity := resources_total_capacity c |}.

Definition set_object_store_socket_name (c : t) (v : string) : t :=
  {| client_id := client_id c; node_manager_address := node_manager_address c;
     raylet_socket_name := raylet_socket_name c;
     object_store_socket_name := v;
     object_manager_port := object_manager_port c;
     node_manager_port := node_manager_port c;
     resources_total_label := resources_total_label c;
     resources_total_capacity := resources_total_capacity c |}.

Definition set_object_manager_port (c : t) (v : Z) : t :=
  {| client_id := client_id c; node_manager_address := node_manager_address c;
     raylet_socket_name := raylet_socket_name c;
     object_store_socket_name := object_store_socket_name c;
     object_manager_port := v;
     node_manager_port := node_manager_port c;
     resources_total_label := resources_total_label c;
     resources_total_capacity := resources_total_capacity c |}.

Definition set_node_manager_port (c : t) (v : Z) : t :=
  {| client_id := client_id c; node_manager_address := node_manager_address c;
     raylet_socket_name := raylet_socket_name c;
     object_store_socket_name := object_store_socket_name c;
     object_manager_port := object_manager_port c;
     node_manager_port := v;
     resources_total_label := resources_total_label c;
     resources_total_capacity := resources_total_capacity c |}.

(** [c.resources_total_label.push_back(v)]. *)
Definition resources_total_label_push_back (c : t) (v : string) : t :=
  {| client_id := client_id c; node_manager_address := node_manager_address c;
     raylet_socket_name := raylet_socket_name c;
     object_store_socket_name := object_store_socket_name c;
     object_manager_port := object_manager_port c;
     node_manager_port := node_manager_port c;
     resources_total_label := resources_total_label c ++ [v];
     resources_total_capacity := resources_total_capacity c |}.

(** [c.resources_total_capacity.push_back(v)]. *)
Definition resources_total_capacity_push_back (c : t) (v : double) : t :=
  {| client_id := client_id c; node_manager_address := node_manager_address c;
     raylet_socket_name := raylet_socket_name c;
     object_store_socket_name := object_store_socket_name c;
     object_manager_port := object_manager_port c;
     node_manager_port := node_manager_port c;
     resources_total_label := resources_total_label c;
     resources_total_capacity := resources_total_capacity c ++ [v] |}.
End ClientTableDataT.

(** [ResourceSet]: the entries of its [std::unordered_map<std::string,
    double>], in the order an iteration over the map visits them. *)
Record ResourceSet : Type := { GetResourceMap : list (string * double) }.

Module NodeManagerConfig.
Record t : Type := {
  resource_config : ResourceSet;
  node_manager_port : Z          (* int *)
}.
End NodeManagerConfig.

Module ObjectManagerConfig.
Record t : Type := {
  object_manager_port : Z;       (* int *)
  store_socket_name : string
}.
End ObjectManagerConfig.

(** What the raylet does to the outside, in the order it does it. *)
Inductive Event : Type :=
| EvAsyncAccept (op : AcceptOp)
| EvCreateConnection (c : Connection)
| EvGcsAttach
| EvGetLocalClient
| EvLogDebug (local_client_id : string) (address : string)
             (node_manager_port object_manager_port : Z)
| EvClientTableConnect (client_info : ClientTableDataT.t)
| EvNodeManagerRegisterGcs
| EvDeadlineTimer (period_ms : Z).

Record World : Type := {
  pending_accepts : list AcceptOp;    (* accepts waiting in the io_service *)
  connections : list Connection;      (* connections handed to the event loop *)
  trace : list Event
}.

Definition initial_world : World :=
  {| pending_accepts := []; connections := []; trace := [] |}.

Definition emit (e : Event) (w : World) : World :=
  {| pending_accepts := pending_accepts w;
     connections := connections w;
     trace := trace w ++ [e] |}.

(** ** Computations on the world *)

Definition M (A : Type) : Type := World -> outcome A * World.

Definition ret {A : Type} (a : A) : M A := fun w => (Ok a, w).

Definition bind {A B : Type} (m : M A) (k : A -> M B) : M B :=
  fun w =>
    match m w with
    | (Ok a, w') => k a w'
    | (Stop f, w') => (Stop f, w')
    end.

Definition lift {A : Type} (o : outcome A) : M A := fun w => (o, w).

Definition tell (e : Event) : M unit := fun w => (Ok tt, emit e w).

Declare Scope world_scope.
Delimit Scope world_scope with world.
Notation "x <- m ;; k" := (bind m (fun x => k))
  (at level 61, m at next level, right associativity) : world_scope.
Notation "m ;; k" := (bind m (fun _ => k))
  (at level 61, right associativity) : world_scope.
Local Open Scope world_scope.

(** ** External collaborators *)

(** One protocol family as generated by the flatbuffers compiler:
    [EnumNamesMessageType()], and the [MIN], [MAX] and [DisconnectClient]
    members of [MessageType] cast to integers. The generated headers are
    not part of the repository. *)
Record ProtocolFamily : Type := {
  EnumNamesMessageType : list (option string);
  MessageType_MIN : Z;
  MessageType_MAX : Z;
  MessageType_DisconnectClient : Z
}.

(** The answers of the directory client, of the node manager and of the
    operating system to the calls [raylet.cc] makes. Each call is made at
    most once per registration, so one answer per call is general. *)
Record Collaborators : Type := {
  gcs_client_Attach : Status;
  client_table_GetLocalClient : ClientTableDataT.t;
  client_table_GetLocalClientId : string;
  client_table_Connect : ClientTableDataT.t -> Status;
  node_manager_RegisterGcs : Status;
  os_assigned_port : Acceptor -> Z
}.

(** The local endpoint of an acceptor. *)
Inductive endpoint : Type :=
| stream_endpoint (path : string)
| tcp_endpoint (port_num : Z).

Definition port (e : endpoint) : Z :=
  match e with
  | tcp_endpoint p => p
  | stream_endpoint _ => 0
  end.

(** Modelled from the spec: binding a TCP acceptor is done by boost.asio,
    outside the repository; the port is "either fixed by configuration or
    OS-assigned (0 means assign)". The endpoint constructor takes an
    [unsigned short], to which the [int] of the configuration converts. *)
Definition tcp_bind (os_port : Z) (configured_port : Z) : endpoint :=
  let port_num := configured_port mod 2 ^ 16 in
  tcp_endpoint (if port_num =? 0 then os_port else port_num).

(** The members of a constructed [Raylet] that this file reads. *)
Record Raylet : Type := {
  socket_name_ : string;
  local_endpoint : Acceptor -> endpoint
}.

(** The two name tables with static storage duration. *)
Record Globals : Type := {
  node_manager_message_enum : vector_string;
  object_manager_message_enum : vector_string
}.

Section RayletModel.

Variable max_size : Z.
Variable protocol : ProtocolFamily.                  (* ray::protocol *)
Variable object_manager_protocol : ProtocolFamily.   (* ray::object_manager::protocol *)
Variable env : Collaborators.

(** The initializers of the two static tables, in declaration order. *)
Definition static_initialization (fuel : nat) : outcome Globals :=
  (nm <- GenerateEnumNames max_size fuel (EnumNamesMessageType protocol)
           (MessageType_MIN protocol) (MessageType_MAX protocol) ;;
   om <- GenerateEnumNames max_size fuel
           (EnumNamesMessageType object_manager_protocol)
           (MessageType_MIN object_manager_protocol)
           (MessageType_MAX object_manager_protocol) ;;
   Ok {| node_manager_message_enum := nm;
         object_manager_message_enum := om |})%outcome.

Variable globals : Globals.

(** [a.async_accept(s, boost::bind(h, this, error))]: the operation waits
    in the io_service until it completes. *)
Definition async_accept (a : Acceptor) (s : Socket) (h : AcceptHandler) : M unit :=
  fun w =>
    (Ok tt,
     {| pending_accepts := pending_accepts w ++ [(a, s, h)];
        connections := connections w;
        trace := trace w ++ [EvAsyncAccept (a, s, h)] |}).

(** Modelled from the spec: [ClientConnection<T>::Create] is defined
    outside this file. It "takes ownership of an already-accepted
    transport handle and begins an asynchronous read loop immediately; it
    does not return a handle the caller must drive": the connection is
    recorded with the callbacks, label, name table and disconnect tag it
    was given. *)
Definition Create (c : Connection) : M unit :=
  fun w =>
    (Ok tt,
     {| pending_accepts := pending_accepts w;
        connections := connections w ++ [c];
        trace := trace w ++ [EvCreateConnection c] |}).

Definition DoAcceptNodeManager : M unit :=
  async_accept node_manager_acceptor_ node_manager_socket_
               bind_HandleAcceptNodeManager.

Definition HandleAcceptNodeManager (error : Z) : M unit :=
  (if error =? 0
   then Create {| transport := ip_tcp;
                  client_handler := node_manager_ProcessNewNodeManager;
                  message_handler := node_manager_ProcessNodeManagerMessage;
                  moved_socket := node_manager_socket_;
                  debug_label := "node manager";
                  message_type_enum_names := node_manager_message_enum globals;
                  error_message_type := MessageType_DisconnectClient protocol |}
   else ret tt) ;;
  DoAcceptNodeManager.

Definition DoAcceptObjectManager : M unit :=
  async_accept object_manager_acceptor_ object_manager_socket_
               bind_HandleAcceptObjectManager.

Definition HandleAcceptObjectManager (error : Z) : M unit :=
  Create {| transport := ip_tcp;
            client_handler := object_manager_ProcessNewClient;
            message_handler := object_manager_ProcessClientMessage;
            moved_socket := object_manager_socket_;
            debug_label := "object manager";
            message_type_enum_names := object_manager_message_enum globals;
            error_message_type :=
              MessageType_DisconnectClient object_manager_protocol |} ;;
  DoAcceptObjectManager.

Definition DoAccept : M unit :=
  async_accept acceptor_ socket_ bind_HandleAccept.

Definition HandleAccept (error : Z) : M unit :=
  (if error =? 0
   then Create {| transport := local_stream_protocol;
                  client_handler := node_manager_ProcessNewClient;
                  message_handler := node_manager_ProcessClientMessage;
                  moved_socket := socket_;
                  debug_label := "worker";
                  message_type_enum_names := node_manager_message_enum globals;
                  error_message_type := MessageType_DisconnectClient protocol |}
   else ret tt) ;;
  DoAccept.

(** [RAY_RETURN_NOT_OK(s); rest]. *)
Definition RAY_RETURN_NOT_OK (s : M Status) (rest : M Status) : M Status :=
  st <- s ;; if ok st then rest else ret st.

(** [RAY_CHECK_OK(s)]. *)
Definition RAY_CHECK_OK (s : M Status) : M unit :=
  st <- s ;; if ok st then ret tt else lift (Stop (BadStatus st)).

Definition RegisterPeriodicTimer : M Status :=
  tell (EvDeadlineTimer 100) ;;
  ret Status_OK.

(** The range-for over the resource map. *)
Fixpoint add_resources (resource_map : list (string * double))
         (client_info : ClientTableDataT.t) : ClientTableDataT.t :=
  match resource_map with
  | [] => client_info
  | resource_pair :: rest =>
      let client_info :=
        ClientTableDataT.resources_total_label_push_back
          client_info (fst resource_pair) in
      let client_info :=
        ClientTableDataT.resources_total_capacity_push_back
          client_info (snd resource_pair) in
      add_resources rest client_info
  end.

Definition RegisterGcs (this : Raylet)
           (node_ip_address raylet_socket_name object_store_socket_name : string)
           (redis_address : string) (redis_port : Z) (redis_password : string)
           (node_manager_config : NodeManagerConfig.t) : M Status :=
  RAY_RETURN_NOT_OK (tell EvGcsAttach ;; ret (gcs_client_Attach env))
  (client_info <- (tell EvGetLocalClient ;; ret (client_table_GetLocalClient env)) ;;
   let client_info :=
     ClientTableDataT.set_node_manager_address client_info node_ip_address in
   let client_info :=
     ClientTableDataT.set_raylet_socket_name client_info raylet_socket_name in
   let client_info :=
     ClientTableDataT.set_object_store_socket_name
       client_info object_store_socket_name in
   let client_info :=
     ClientTableDataT.set_object_manager_port
       client_info (port (local_endpoint this object_manager_acceptor_)) in
   let client_info :=
     ClientTableDataT.set_node_manager_port
       client_info (port (local_endpoint this node_manager_acceptor_)) in
   let client_info :=
     add_resources
       (GetResourceMap (NodeManagerConfig.resource_config node_manager_config))
       client_info in
   tell (EvLogDebug (client_table_GetLocalClientId env)
                    (ClientTableDataT.node_manager_address client_info)
                    (ClientTableDataT.node_manager_port client_info)
                    (ClientTableDataT.object_manager_port client_info)) ;;
   RAY_RETURN_NOT_OK (tell (EvClientTableConnect client_info) ;;
                      ret (client_table_Connect env client_info))
   (RAY_RETURN_NOT_OK (tell EvNodeManagerRegisterGcs ;;
                       ret (node_manager_RegisterGcs env))
    (ret Status_OK))).

(** The member initializers of the constructor: the three acceptors are
    bound to their endpoints. *)
Definition member_initializers (socket_name : string)
           (node_manager_config : NodeManagerConfig.t)
           (object_manager_config : ObjectManagerConfig.t) : Raylet :=
  {| socket_name_ := socket_name;
     local_endpoint := fun a =>
       match a with
       | acceptor_ => stream_endpoint socket_name
       | object_manager_acceptor_ =>
           tcp_bind (os_assigned_port env object_manager_acceptor_)
                    (ObjectManagerConfig.object_manager_port object_manager_config)
       | node_manager_acceptor_ =>
           tcp_bind (os_assigned_port env node_manager_acceptor_)
                    (NodeManagerConfig.node_manager_port node_manager_config)
       end |}.

(** The constructor: member initializers, then the body. *)
Definition Raylet_ctor (socket_name node_ip_address redis_address : string)
           (redis_port : Z) (redis_password : string)
           (node_manager_config : NodeManagerConfig.t)
           (object_manager_config : ObjectManagerConfig.t) : M Raylet :=
  let this :=
    member_initializers socket_name node_manager_config object_manager_config in
  DoAccept ;;
  DoAcceptObjectManager ;;
  DoAcceptNodeManager ;;
  RAY_CHECK_OK (RegisterGcs this node_ip_address (socket_name_ this)
                  (ObjectManagerConfig.store_socket_name object_manager_config)
                  redis_address redis_port redis_password node_manager_config) ;;
  RAY_CHECK_OK RegisterPeriodicTimer ;;
  ret this.

(** ** The event loop *)

Definition run_handler (h : AcceptHandler) (error : Z) : M unit :=
  match h with
  | bind_HandleAccept => HandleAccept error
  | bind_HandleAcceptObjectManager => HandleAcceptObjectManager error
  | bind_HandleAcceptNodeManager => HandleAcceptNodeManager error
  end.

(** The io_service completes the pending accept [op] with [error] and
    calls its handler; an operation that is not pending cannot complete. *)
Definition complete_accept (op : AcceptOp) (error : Z) : M unit :=
  fun w =>
    match take_op op (pending_accepts w) with
    | None => (Ok tt, w)
    | Some rest =>
        run_handler (snd op) error
          {| pending_accepts := rest;
             connections := connections w;
             trace := trace w |}
    end.

Fixpoint io_service_run (completions : list (AcceptOp * Z)) : M unit :=
  match completions with
  | [] => ret tt
  | (op, error) :: rest =>
      complete_accept op error ;; io_service_run rest
  end.

End RayletModel.

(** Process start up to the end of the [Raylet] constructor: the static
    tables are initialized, then the object is constructed. *)
Definition bootstrap (max_size : Z) (protocol object_manager_protocol : ProtocolFamily)
           (env : Collaborators) (fuel : nat)
           (socket_name node_ip_address redis_address : string)
           (redis_port : Z) (redis_password : string)
           (node_manager_config : NodeManagerConfig.t)
           (object_manager_config : ObjectManagerConfig.t)
  : outcome (Globals * Raylet) * World :=
  match static_initialization max_size protocol object_manager_protocol fuel with
  | Stop f => (Stop f, initial_world)
  | Ok globals =>
      bind (Raylet_ctor env socket_name node_ip_address redis_address redis_port
                        redis_password node_manager_config object_manager_config)
           (fun this => ret (globals, this)) initial_world
  end.

(** The accepts issued by [DoAccept], [DoAcceptObjectManager] and
    [DoAcceptNodeManager]. *)
Definition accept_loops : list AcceptOp :=
  [(acceptor_, socket_, bind_HandleAccept);
   (object_manager_acceptor_, object_manager_socket_, bind_HandleAcceptObjectManager);
   (node_manager_acceptor_, node_manager_socket_, bind_HandleAcceptNodeManager)].

(** An acceptor is armed when one of its accepts waits in the io_service. *)
Definition armed (a : Acceptor) (w : World) : bool :=
  existsb (fun op : AcceptOp => Acceptor_eqb a (fst (fst op))) (pending_accepts w).

(** The descriptors handed to the client table's [Connect], oldest first. *)
Definition published (t : list Event) : list ClientTableDataT.t :=
  flat_map (fun e => match e with
                     | EvClientTableConnect client_info => [client_info]
                     | _ => []
                     end) t.

(** ** Observations on completions and connections *)

(** [op] is one of the three accepts the raylet issues. *)
Definition is_accept_loop (op : AcceptOp) : bool :=
  existsb (AcceptOp_eqb op) accept_loops.

(** A completion that leads to a connection: an accept of the raylet that
    succeeded, or any completed accept of the object manager acceptor. *)
Definition creates_connection (completion : AcceptOp * Z) : bool :=
  is_accept_loop (fst completion)
  && ((snd completion =? 0)
      || AcceptHandler_eqb (snd (fst completion)) bind_HandleAcceptObjectManager).

(** The callbacks, transport, name table and disconnect tag of a connection
    belong to one subsystem and one protocol family. *)
Definition same_family (protocol object_manager_protocol : ProtocolFamily)
           (globals : Globals) (c : Connection) : Prop :=
  match message_handler c with
  | node_manager_ProcessClientMessage =>
      client_handler c = node_manager_ProcessNewClient /\
      transport c = local_stream_protocol /\
      message_type_enum_names c = node_manager_message_enum globals /\
      error_message_type c = MessageType_DisconnectClient protocol
  | node_manager_ProcessNodeManagerMessage =>
      client_handler c = node_manager_ProcessNewNodeManager /\
      transport c = ip_tcp /\
      message_type_enum_names c = node_manager_message_enum globals /\
      error_message_type c = MessageType_DisconnectClient protocol
  | object_manager_ProcessClientMessage =>
      client_handler c = object_manager_ProcessNewClient /\
      transport c = ip_tcp /\
      message_type_enum_names c = object_manager_message_enum globals /\
      error_message_type c = MessageType_DisconnectClient object_manager_protocol
  end.

(** The disconnect tag of a connection indexes its name table. *)
Definition disconnect_tag_named (c : Connection) : Prop :=
  exists name,
    nth_error (message_type_enum_names c) (Z.to_nat (error_message_type c))
    = Some name.

(** ** Sample inputs *)

(** [max_size()] of a vector of 32-byte strings on an LP64 platform. *)
Definition lp64_max_size : Z := 288230376151711743.

(** A small node manager protocol: three message types numbered from 1. *)
Definition sample_protocol : ProtocolFamily :=
  {| EnumNamesMessageType :=
       [Some "SubmitTask"; Some "TaskDone"; Some "DisconnectClient"; None];
     MessageType_MIN := 1;
     MessageType_MAX := 3;
     MessageType_DisconnectClient := 3 |}.

(** A small object manager protocol: three message types numbered from 1. *)
Definition sample_object_manager_protocol : ProtocolFamily :=
  {| EnumNamesMessageType :=
       [Some "PushRequest"; Some "PullRequest"; Some "DisconnectClient"; None];
     MessageType_MIN := 1;
     MessageType_MAX := 3;
     MessageType_DisconnectClient := 3 |}.

Definition sample_local_client : ClientTableDataT.t :=
  {| ClientTableDataT.client_id := "client-0";
     ClientTableDataT.node_manager_address := "";
     ClientTableDataT.raylet_socket_name := "";
     ClientTableDataT.object_store_socket_name := "";
     ClientTableDataT.object_manager_port := 0;
     ClientTableDataT.node_manager_port := 0;
     ClientTableDataT.resources_total_label := [];
     ClientTableDataT.resources_total_capacity := [] |}.

(** A directory and a node manager that accept everything, and an
    operating system that assigns the ports 40001 and 40002. *)
Definition sample_env : Collaborators :=
  {| gcs_client_Attach := Status_OK;
     client_table_GetLocalClient := sample_local_client;
     client_table_GetLocalClientId := "client-0";
     client_table_Connect := fun _ => Status_OK;
     node_manager_RegisterGcs := Status_OK;
     os_assigned_port := fun a =>
       match a with
       | node_manager_acceptor_ => 40001
       | _ => 40002
       end |}.

(** The same, with a directory whose client table refuses the descriptor. *)
Definition refusing_env : Collaborators :=
  {| gcs_client_Attach := Status_OK;
     client_table_GetLocalClient := sample_local_client;
     client_table_GetLocalClientId := "client-0";
     client_table_Connect := fun _ => Status_Error 11 "connect refused";
     node_manager_RegisterGcs := Status_OK;
     os_assigned_port := fun a =>
       match a with
       | node_manager_acceptor_ => 40001
       | _ => 40002
       end |}.

(** The double 4.0. *)
Definition four : double := {| bits := 4616189618054758400 |}.

(** The resource map with the entry CPU = 4.0 and node manager port 0. *)
Definition sample_node_manager_config : NodeManagerConfig.t :=
  {| NodeManagerConfig.resource_config := {| GetResourceMap := [("CPU", four)] |};
     NodeManagerConfig.node_manager_port := 0 |}.

Definition sample_object_manager_config : ObjectManagerConfig.t :=
  {| ObjectManagerConfig.object_manager_port := 0;
     ObjectManagerConfig.store_socket_name := "/tmp/store.sock" |}.

Definition sample_globals : Globals :=
  {| node_manager_message_enum :=
       ["EmptyMessageType"; "SubmitTask"; "TaskDone"; "DisconnectClient"];
     object_manager_message_enum :=
       ["EmptyMessageType"; "PushRequest"; "PullRequest"; "DisconnectClient"] |}.

(** The world right after the three accept loops are started. *)
Definition started_world : World :=
  {| pending_accepts := accept_loops;
     connections := [];
     trace := map EvAsyncAccept accept_loops |}.

(** Four completed accepts: two succeed, two fail with an error code. *)
Definition sample_completions : list (AcceptOp * Z) :=
  [((acceptor_, socket_, bind_HandleAccept), 0);
   ((node_manager_acceptor_, node_manager_socket_, bind_HandleAcceptNodeManager), 104);
   ((object_manager_acceptor_, object_manager_socket_,
     bind_HandleAcceptObjectManager), 104);
   ((node_manager_acceptor_, node_manager_socket_, bind_HandleAcceptNodeManager), 0)].

(** * Properties *)

(** ** Lists and machine integers *)

Ltac case_leb :=
  match goal with
  | |- context [?a <=? ?b] => destruct (Z.leb_spec a b)
  end.

Lemma skipn_at_nth {A : Type} (l : list A) (n : nat) (x : A) :
  nth_error l n = Some x -> skipn n l = x :: skipn (S n) l.
Proof.
  revert l; induction n as [|n IH]; intros [|y l] H; simpl in *; try discriminate.
  - now inversion H.
  - now apply IH.
Qed.

Lemma skipn_head_nth {A : Type} (l : list A) (n : nat) (x : A) (t : list A) :
  skipn n l = x :: t -> nth_error l n = Some x /\ skipn (S n) l = t.
Proof.
  revert l; induction n as [|n IH]; intros [|y l] H; simpl in *; try discriminate.
  - inversion H; auto.
  - now apply IH.
Qed.

Lemma size_app (v w : vector_string) : size (v ++ w) = size v + size w.
Proof. unfold size. rewrite length_app. lia. Qed.

Lemma size_nonneg (v : vector_string) : 0 <= size v.
Proof. unfold size. lia. Qed.

Lemma to_size_t_small (z : Z) : 0 <= z < 2 ^ 64 -> to_size_t z = z.
Proof. intros H. unfold to_size_t, size_t_modulus. now apply Z.mod_small. Qed.

(** The comparison of the final check, done on [size_t], agrees with the
    comparison of the integers when the vector is shorter than [2^63]. *)
Lemma size_check_exact (end_index n : Z) :
  int_range end_index -> 0 <= n < 2 ^ 63 ->
  (to_size_t end_index =? to_size_t (n - 1)) = (end_index =? n - 1).
Proof.
  unfold int_range, to_size_t, size_t_modulus.
  change (2 ^ 31) with 2147483648.
  change (2 ^ 63) with 9223372036854775808.
  change (2 ^ 64) with 18446744073709551616.
  intros He Hn.
  destruct (Z.eqb_spec end_index (n - 1)) as [->|Hne].
  - apply Z.eqb_refl.
  - apply Z.eqb_neq. intros Heq. apply Hne.
    Z.div_mod_to_equations. lia.
Qed.

Section ProtocolTableBuilderFacts.

Variable max_size : Z.
Hypothesis max_size_range : 0 <= max_size < 2 ^ 63.

Lemma push_back_Ok_inv (v v' : vector_string) (s : string) :
  push_back max_size v s = Ok v' -> v' = v ++ [s] /\ size v < max_size.
Proof.
  unfold push_back. intros H.
  destruct (Z.ltb_spec (size v) max_size); inversion H. auto.
Qed.

Lemma push_placeholders_spec (n : nat) (v : vector_string) :
  size v <= max_size ->
  push_placeholders max_size n v =
    if size v + Z.of_nat n <=? max_size
    then Ok (v ++ repeat EmptyMessageType n)
    else Stop LengthError.
Proof.
  revert v; induction n as [|n IH]; intros v Hv.
  - simpl. rewrite app_nil_r. case_leb; [reflexivity | lia].
  - cbn [push_placeholders]. unfold push_back.
    destruct (Z.ltb_spec (size v) max_size) as [Hlt|Hge]; cbn [obind].
    + rewrite IH
        by (rewrite size_app; change (size [EmptyMessageType]) with 1; lia).
      rewrite size_app. change (size [EmptyMessageType]) with 1.
      replace (size v + 1 + Z.of_nat n) with (size v + Z.of_nat (S n)) by lia.
      destruct (size v + Z.of_nat (S n) <=? max_size); [|reflexivity].
      now rewrite <- app_assoc.
    + case_leb; [lia | reflexivity].
Qed.

(** The copy loop on an array whose entries from [i] on are [todo]
    followed by a null pointer. *)
Lemma copy_names_spec (ptr : list (option string)) (todo : list string) :
  forall (fuel : nat) (i : Z) (v : vector_string) (rest : list (option string)),
    skipn (Z.to_nat i) ptr = map Some todo ++ None :: rest ->
    0 <= i <= size v -> size v <= max_size ->
    (List.length todo < fuel)%nat ->
    copy_names max_size fuel ptr i v =
      if size v + Z.of_nat (List.length todo) <=? max_size
      then Ok (v ++ todo)
      else Stop LengthError.
Proof.
  induction todo as [|name todo IH]; intros fuel i v rest Hskip Hi Hv Hfuel;
    (destruct fuel as [|fuel]; [simpl in Hfuel; lia|]);
    cbn [copy_names]; simpl in Hskip;
    apply skipn_head_nth in Hskip; destruct Hskip as [Hnth Hskip]; rewrite Hnth.
  - rewrite app_nil_r. simpl. case_leb; [reflexivity | lia].
  - unfold push_back.
    destruct (Z.ltb_spec (size v) max_size) as [Hlt|Hge]; cbn [obind].
    + assert (Hi1 : to_size_t (i + 1) = i + 1).
      { apply to_size_t_small. change (2 ^ 63) with 9223372036854775808 in *.
        change (2 ^ 64) with 18446744073709551616. lia. }
      rewrite Hi1.
      rewrite (IH fuel (i + 1) (v ++ [name]) rest).
      * rewrite size_app. change (size [name]) with 1.
        replace (size v + 1 + Z.of_nat (List.length todo))
          with (size v + Z.of_nat (List.length (name :: todo)))
          by (simpl List.length; lia).
        destruct (_ <=? max_size); [|reflexivity].
        now rewrite <- app_assoc.
      * replace (Z.to_nat (i + 1)) with (S (Z.to_nat i)) by lia. exact Hskip.
      * rewrite size_app. change (size [name]) with 1. lia.
      * rewrite size_app. change (size [name]) with 1. lia.
      * simpl in Hfuel. lia.
    + case_leb; [simpl List.length in *; lia | reflexivity].
Qed.

(** Whenever the copy loop returns, it has appended the entries from [i]
    up to a null pointer. *)
Lemma copy_names_Ok_inv (ptr : list (option string)) :
  forall (fuel : nat) (i : Z) (v v' : vector_string),
    0 <= i <= size v ->
    copy_names max_size fuel ptr i v = Ok v' ->
    exists todo rest,
      skipn (Z.to_nat i) ptr = map Some todo ++ None :: rest /\
      v' = v ++ todo /\ size v' <= Z.max (size v) max_size.
Proof.
  induction fuel as [|fuel IH]; intros i v v' Hi H; [discriminate|].
  cbn [copy_names] in H.
  destruct (nth_error ptr (Z.to_nat i)) as [[name|]|] eqn:Hnth; try discriminate.
  - destruct (push_back max_size v name) as [v1|] eqn:Hpush; [|discriminate].
    cbn [obind] in H.
    apply push_back_Ok_inv in Hpush. destruct Hpush as [-> Hlt].
    assert (Hi1 : to_size_t (i + 1) = i + 1).
    { apply to_size_t_small. change (2 ^ 63) with 9223372036854775808 in *.
      change (2 ^ 64) with 18446744073709551616. lia. }
    rewrite Hi1 in H. apply IH in H.
    + destruct H as (todo & rest & Hskip & -> & Hsz).
      exists (name :: todo), rest. split; [|split].
      * rewrite (skipn_at_nth _ _ _ Hnth). simpl. f_equal.
        replace (Z.to_nat (i + 1)) with (S (Z.to_nat i)) in Hskip by lia.
        exact Hskip.
      * now rewrite <- app_assoc.
      * rewrite !size_app in *. change (size [name]) with 1 in *. lia.
    + rewrite size_app. change (size [name]) with 1. lia.
  - inversion H; subst v'. exists [], (skipn (S (Z.to_nat i)) ptr).
    split; [|split].
    + now apply skipn_at_nth.
    + now rewrite app_nil_r.
    + lia.
Qed.

(** What a returned table is made of. *)
Lemma GenerateEnumNames_Ok_inv (fuel : nat) (ptr : list (option string))
      (start_index end_index : Z) (table : vector_string) :
  int_range end_index ->
  GenerateEnumNames max_size fuel ptr start_index end_index = Ok table ->
  exists names rest,
    ptr = map Some names ++ None :: rest /\
    table = repeat EmptyMessageType (Z.to_nat start_index) ++ names /\
    size table - 1 = end_index.
Proof.
  intros He H. unfold GenerateEnumNames in H.
  assert (Hnil : size [] = 0) by reflexivity.
  rewrite push_placeholders_spec in H by lia.
  rewrite Hnil in H.
  destruct (Z.leb_spec (0 + Z.of_nat (Z.to_nat start_index)) max_size)
    as [Hroom|]; [|discriminate].
  cbn [obind app] in H.
  set (placeholders := repeat EmptyMessageType (Z.to_nat start_index)) in *.
  assert (Hph : size placeholders = Z.of_nat (Z.to_nat start_index)).
  { unfold size, placeholders. now rewrite repeat_length. }
  destruct (copy_names max_size fuel ptr 0 placeholders) as [v|] eqn:Hcopy;
    [|discriminate].
  cbn [obind] in H.
  apply copy_names_Ok_inv in Hcopy; [|lia].
  destruct Hcopy as (names & rest & Hskip & -> & Hsz).
  change (Z.to_nat 0) with 0%nat in Hskip. simpl in Hskip.
  assert (Hlen : 0 <= size (placeholders ++ names) < 2 ^ 63).
  { pose proof (size_nonneg (placeholders ++ names)). lia. }
  rewrite (size_check_exact _ _ He Hlen) in H.
  unfold RAY_CHECK in H.
  destruct (Z.eqb_spec end_index (size (placeholders ++ names) - 1)) as [Heq|];
    [|discriminate].
  cbn [obind] in H. inversion H; subst table.
  exists names, rest. auto.
Qed.

(** The result on a null-terminated array, given enough fuel. *)
Lemma GenerateEnumNames_eval (fuel : nat) (names : list string)
      (rest : list (option string)) (start_index end_index : Z) :
  (List.length names < fuel)%nat ->
  GenerateEnumNames max_size fuel (map Some names ++ None :: rest)
                    start_index end_index =
    if size (repeat EmptyMessageType (Z.to_nat start_index) ++ names) <=? max_size
    then
      if to_size_t end_index
         =? to_size_t (size (repeat EmptyMessageType (Z.to_nat start_index)
                             ++ names) - 1)
      then Ok (repeat EmptyMessageType (Z.to_nat start_index) ++ names)
      else Stop (CheckFailed "Message Type mismatch!")
    else Stop LengthError.
Proof.
  intros Hfuel. unfold GenerateEnumNames.
  set (placeholders := repeat EmptyMessageType (Z.to_nat start_index)).
  assert (Hph : size placeholders = Z.of_nat (Z.to_nat start_index)).
  { unfold size, placeholders. now rewrite repeat_length. }
  assert (Hnil : size [] = 0) by reflexivity.
  pose proof (size_nonneg names) as Hn.
  rewrite push_placeholders_spec by lia.
  rewrite Hnil. cbn [app]. fold placeholders.
  destruct (Z.leb_spec (0 + Z.of_nat (Z.to_nat start_index)) max_size) as [Hroom|Hfull].
  - cbn [obind].
    rewrite (copy_names_spec _ names fuel 0 placeholders rest);
      [|reflexivity|lia|lia|assumption].
    replace (size placeholders + Z.of_nat (List.length names))
      with (size (placeholders ++ names)) by (now rewrite size_app).
    destruct (size (placeholders ++ names) <=? max_size); [|reflexivity].
    cbn [obind]. unfold RAY_CHECK.
    destruct (_ =? _); reflexivity.
  - cbn [obind]. case_leb; [rewrite size_app in *; lia | reflexivity].
Qed.

Lemma first_null_index_split (ptr : list (option string)) (k : nat) :
  first_null_index ptr = Some k ->
  exists names rest,
    ptr = map Some names ++ None :: rest /\ List.length names = k.
Proof.
  revert k; induction ptr as [|[name|] ptr IH]; intros k H; simpl in H.
  - discriminate.
  - destruct (first_null_index ptr) as [k'|]; [|discriminate].
    inversion H; subst k.
    destruct (IH k' eq_refl) as (names & rest & -> & Hlen).
    exists (name :: names), rest. simpl. now rewrite Hlen.
  - inversion H; subst k. now exists [], ptr.
Qed.

Lemma first_null_index_exists (ptr : list (option string)) :
  In None ptr -> exists k, first_null_index ptr = Some k.
Proof.
  induction ptr as [|[name|] ptr IH]; intros Hin; simpl.
  - destruct Hin.
  - destruct Hin as [Hin|Hin]; [discriminate|].
    destruct (IH Hin) as [k ->]. now exists (S k).
  - now exists 0%nat.
Qed.

(** C1. [GenerateEnumNames] emits [start_index] placeholders, appends the
    names of the raw array up to its null entry, in order, and checks
    that the size of the table minus one is [end_index]: a table it
    returns has exactly this shape and size, and on a null-terminated
    array whose table disagrees with [end_index] the check fails, so
    that no table is returned. *)
Theorem GenerateEnumNames_builds_checked_table
        (fuel : nat) (ptr : list (option string)) (start_index end_index : Z) :
  int_range end_index ->
  (forall table,
      GenerateEnumNames max_size fuel ptr start_index end_index = Ok table ->
      exists names rest,
        ptr = map Some names ++ None :: rest /\
        table = repeat EmptyMessageType (Z.to_nat start_index) ++ names /\
        size table - 1 = end_index)
  /\
  (forall names rest,
      ptr = map Some names ++ None :: rest ->
      (List.length names < fuel)%nat ->
      size (repeat EmptyMessageType (Z.to_nat start_index) ++ names) <= max_size ->
      GenerateEnumNames max_size fuel ptr start_index end_index =
        if size (repeat EmptyMessageType (Z.to_nat start_index) ++ names) - 1
           =? end_index
        then Ok (repeat EmptyMessageType (Z.to_nat start_index) ++ names)
        else Stop (CheckFailed "Message Type mismatch!")).
Proof.
  intros He. split.
  - intros table H. now apply (GenerateEnumNames_Ok_inv fuel ptr start_index end_index).
  - intros names rest -> Hfuel Hroom.
    rewrite GenerateEnumNames_eval by assumption.
    destruct (Z.leb_spec
                (size (repeat EmptyMessageType (Z.to_nat start_index) ++ names))
                max_size) as [_|Hbad]; [|lia].
    rewrite size_check_exact; [|assumption|].
    + rewrite Z.eqb_sym. reflexivity.
    + pose proof (size_nonneg
                    (repeat EmptyMessageType (Z.to_nat start_index) ++ names)).
      lia.
Qed.

(** C2. In a table returned by [GenerateEnumNames], every index in
    [0, start_index) holds the placeholder "EmptyMessageType", and every
    index in [0, end_index] is within the bounds of the table. *)
Theorem GenerateEnumNames_table_indexable
        (fuel : nat) (ptr : list (option string)) (start_index end_index : Z)
        (table : vector_string) :
  int_range end_index ->
  GenerateEnumNames max_size fuel ptr start_index end_index = Ok table ->
  (forall i, 0 <= i < start_index ->
             nth_error table (Z.to_nat i) = Some EmptyMessageType)
  /\
  (forall i, 0 <= i <= end_index ->
             i < size table /\
             exists name, nth_error table (Z.to_nat i) = Some name).
Proof.
  intros He H.
  destruct (GenerateEnumNames_Ok_inv _ _ _ _ _ He H)
    as (names & rest & _ & -> & Hsize).
  split.
  - intros i Hi.
    rewrite nth_error_app1 by (rewrite repeat_length; lia).
    apply nth_error_repeat. lia.
  - intros i Hi. split; [lia|].
    destruct (nth_error _ (Z.to_nat i)) as [name|] eqn:Hnth; [now exists name|].
    apply nth_error_None in Hnth. unfold size in Hsize. lia.
Qed.

Lemma first_null_index_firstn (ptr : list (option string)) (k : nat) :
  first_null_index ptr = Some k ->
  exists names rest,
    ptr = map Some names ++ None :: rest /\ List.length names = k /\
    firstn k ptr = map Some names.
Proof.
  intros Hk.
  destruct (first_null_index_split ptr k Hk) as (names & rest & -> & Hlen).
  exists names, rest. split; [reflexivity|]. split; [exact Hlen|].
  rewrite <- Hlen, <- (length_map Some names).
  rewrite firstn_app, Nat.sub_diag, firstn_all. cbn. apply app_nil_r.
Qed.

(** C10. On a raw array that holds a null entry, [GenerateEnumNames]
    terminates: with more fuel than the index [k] of the first null entry
    its result is settled. It is the table of the placeholders followed
    by the [k] entries before the null entry when the table fits the
    vector and passes the check, the failed check when it fits and does
    not pass, and the length error when it does not fit; so it no longer
    depends on the fuel and is neither a loop that ran out of budget nor a
    read past the array. The copy loop appends exactly [k] entries, and a
    returned table has [k] entries after its placeholders. *)
Theorem GenerateEnumNames_terminates
        (ptr : list (option string)) (start_index end_index : Z) :
  In None ptr ->
  exists k,
    first_null_index ptr = Some k /\
    forall fuel, (k < fuel)%nat ->
      GenerateEnumNames max_size fuel ptr start_index end_index
        = GenerateEnumNames max_size (S k) ptr start_index end_index /\
      GenerateEnumNames max_size fuel ptr start_index end_index <> Stop OutOfFuel /\
      GenerateEnumNames max_size fuel ptr start_index end_index <> Stop OutOfBounds /\
      (forall enum_names,
          size enum_names + Z.of_nat k <= max_size ->
          exists names,
            List.length names = k /\
            copy_names max_size fuel ptr 0 enum_names = Ok (enum_names ++ names)) /\
      (forall table,
          GenerateEnumNames max_size fuel ptr start_index end_index = Ok table ->
          List.length table = (Z.to_nat start_index + k)%nat) /\
      (exists names,
          List.length names = k /\
          firstn k ptr = map Some names /\
          GenerateEnumNames max_size fuel ptr start_index end_index =
            if size (repeat EmptyMessageType (Z.to_nat start_index) ++ names)
               <=? max_size
            then
              if to_size_t end_index
                 =? to_size_t (size (repeat EmptyMessageType
                                            (Z.to_nat start_index) ++ names) - 1)
              then Ok (repeat EmptyMessageType (Z.to_nat start_index) ++ names)
              else Stop (CheckFailed "Message Type mismatch!")
            else Stop LengthError) /\
      (Z.of_nat (Z.to_nat start_index) + Z.of_nat k <= max_size ->
       end_index = Z.of_nat (Z.to_nat start_index) + Z.of_nat k - 1 ->
       exists names,
         List.length names = k /\
         firstn k ptr = map Some names /\
         GenerateEnumNames max_size fuel ptr start_index end_index
           = Ok (repeat EmptyMessageType (Z.to_nat start_index) ++ names)).
Proof.
  intros Hin.
  destruct (first_null_index_exists ptr Hin) as [k Hk].
  exists k. split; [exact Hk|].
  destruct (first_null_index_firstn ptr k Hk)
    as (names & rest & Hptr & Hlen & Hfirstn).
  intros fuel Hfuel.
  assert (Heval : forall f, (k < f)%nat ->
            GenerateEnumNames max_size f ptr start_index end_index =
              if size (repeat EmptyMessageType (Z.to_nat start_index) ++ names)
                 <=? max_size
              then
                if to_size_t end_index
                   =? to_size_t (size (repeat EmptyMessageType
                                              (Z.to_nat start_index) ++ names) - 1)
                then Ok (repeat EmptyMessageType (Z.to_nat start_index) ++ names)
                else Stop (CheckFailed "Message Type mismatch!")
              else Stop LengthError).
  { intros f Hf. rewrite Hptr. apply GenerateEnumNames_eval. lia. }
  assert (Hsize : size (repeat EmptyMessageType (Z.to_nat start_index) ++ names)
                  = Z.of_nat (Z.to_nat start_index) + Z.of_nat k).
  { unfold size. rewrite length_app, repeat_length, Hlen. lia. }
  rewrite (Heval fuel Hfuel), (Heval (S k)) by lia.
  split; [reflexivity|].
  set (table := repeat EmptyMessageType (Z.to_nat start_index) ++ names) in *.
  assert (Hcases :
            forall f,
              (if size table <=? max_size
               then if to_size_t end_index =? to_size_t (size table - 1)
                    then Ok table
                    else Stop (CheckFailed "Message Type mismatch!")
               else Stop LengthError) = Stop f ->
              f = CheckFailed "Message Type mismatch!" \/ f = LengthError).
  { intros f. destruct (_ <=? _); [destruct (_ =? _)|];
      intros H; inversion H; auto. }
  split; [|split; [|split; [|split; [|split]]]].
  - intros H. destruct (Hcases _ H); discriminate.
  - intros H. destruct (Hcases _ H); discriminate.
  - intros enum_names Hroom. exists names. split; [exact Hlen|].
    pose proof (size_nonneg enum_names).
    rewrite Hptr.
    rewrite (copy_names_spec _ names fuel 0 enum_names rest);
      [|reflexivity|lia|lia|lia].
    rewrite Hlen. case_leb; [reflexivity | lia].
  - intros table' H.
    destruct (_ <=? _); [destruct (_ =? _)|]; inversion H; subst table'.
    unfold table. now rewrite length_app, repeat_length, Hlen.
  - exists names. split; [exact Hlen|]. split; [exact Hfirstn|]. reflexivity.
  - intros Hroom Hend. exists names.
    split; [exact Hlen|]. split; [exact Hfirstn|].
    destruct (Z.leb_spec (size table) max_size) as [_|Hbad]; [|lia].
    rewrite Hend, <- Hsize, Z.eqb_refl. reflexivity.
Qed.

End ProtocolTableBuilderFacts.

(** ** Registration *)

Ltac run_world :=
  unfold RAY_RETURN_NOT_OK, RAY_CHECK_OK, RegisterPeriodicTimer,
    DoAccept, DoAcceptObjectManager, DoAcceptNodeManager, async_accept, Create,
    bind, ret, tell, lift, emit; cbn [fst snd trace pending_accepts connections ok].

Section Registration.

Variable env : Collaborators.
Variable this : Raylet.
Variables node_ip_address raylet_socket_name object_store_socket_name : string.
Variable redis_address : string.
Variable redis_port : Z.
Variable redis_password : string.
Variable node_manager_config : NodeManagerConfig.t.

Lemma add_resources_fields (resource_map : list (string * double))
      (c : ClientTableDataT.t) :
  let c' := add_resources resource_map c in
  ClientTableDataT.client_id c' = ClientTableDataT.client_id c /\
  ClientTableDataT.node_manager_address c' = ClientTableDataT.node_manager_address c /\
  ClientTableDataT.raylet_socket_name c' = ClientTableDataT.raylet_socket_name c /\
  ClientTableDataT.object_store_socket_name c'
    = ClientTableDataT.object_store_socket_name c /\
  ClientTableDataT.object_manager_port c' = ClientTableDataT.object_manager_port c /\
  ClientTableDataT.node_manager_port c' = ClientTableDataT.node_manager_port c /\
  ClientTableDataT.resources_total_label c'
    = ClientTableDataT.resources_total_label c ++ map fst resource_map /\
  ClientTableDataT.resources_total_capacity c'
    = ClientTableDataT.resources_total_capacity c ++ map snd resource_map.
Proof.
  revert c; induction resource_map as [|[name capacity] rest IH]; intros c; simpl.
  - rewrite !app_nil_r. repeat split.
  - specialize (IH (ClientTableDataT.resources_total_capacity_push_back
                      (ClientTableDataT.resources_total_label_push_back c name)
                      capacity)).
    simpl in IH. destruct IH as (H1 & H2 & H3 & H4 & H5 & H6 & H7 & H8).
    rewrite H1, H2, H3, H4, H5, H6, H7, H8. simpl.
    rewrite <- !app_assoc. repeat split.
Qed.


Lemma published_app (t1 t2 : list Event) :
  published (t1 ++ t2) = published t1 ++ published t2.
Proof. unfold published. apply flat_map_app. Qed.

(** The descriptor published when the attach succeeds, field by field. *)
Lemma RegisterGcs_published (w : World) :
  gcs_client_Attach env = Status_OK ->
  exists client_info st w',
    RegisterGcs env this node_ip_address raylet_socket_name
                object_store_socket_name redis_address redis_port
                redis_password node_manager_config w = (Ok st, w') /\
    st = (if ok (client_table_Connect env client_info)
          then node_manager_RegisterGcs env
          else client_table_Connect env client_info) /\
    pending_accepts w' = pending_accepts w /\
    connections w' = connections w /\
    published (trace w') = published (trace w) ++ [client_info] /\
    ClientTableDataT.node_manager_port client_info
      = port (local_endpoint this node_manager_acceptor_) /\
    ClientTableDataT.object_manager_port client_info
      = port (local_endpoint this object_manager_acceptor_) /\
    ClientTableDataT.resources_total_label client_info
      = ClientTableDataT.resources_total_label (client_table_GetLocalClient env)
        ++ map fst (GetResourceMap
                      (NodeManagerConfig.resource_config node_manager_config)) /\
    ClientTableDataT.resources_total_capacity client_info
      = ClientTableDataT.resources_total_capacity (client_table_GetLocalClient env)
        ++ map snd (GetResourceMap
                      (NodeManagerConfig.resource_config node_manager_config)).
Proof.
  intros Hattach. unfold RegisterGcs. run_world. rewrite Hattach. cbn.
  match goal with
  | |- context [client_table_Connect env ?c] => exists c
  end.
  match goal with
  | |- context [client_table_Connect env (add_resources ?rm ?c)] =>
      destruct (add_resources_fields rm c) as (_ & _ & _ & _ & H5 & H6 & H7 & H8)
  end.
  cbn in H5, H6, H7, H8.
  destruct (client_table_Connect env _) as [|code msg] eqn:Hconnect; cbn.
  - destruct (node_manager_RegisterGcs env) eqn:Hnm; cbn;
      do 2 eexists; (split; [reflexivity|]); cbn;
      rewrite !published_app; cbn; rewrite ?app_nil_r.
    all: repeat split; assumption.
  - do 2 eexists; (split; [reflexivity|]); cbn.
    rewrite !published_app; cbn; rewrite ?app_nil_r.
    repeat split; assumption.
Qed.

(** C5. The published descriptor's resource name list and capacity list
    are filled in parallel: the names and the capacities of the resource
    map, in its iteration order, are appended to the two lists of the
    local client's descriptor; when these two start at the same length,
    they end at the same length and the pair visited at position [i]
    sits at the same index of both. *)
Theorem RegisterGcs_resources_parallel (w : World) :
  gcs_client_Attach env = Status_OK ->
  let template := client_table_GetLocalClient env in
  let resource_map :=
    GetResourceMap (NodeManagerConfig.resource_config node_manager_config) in
  exists client_info,
    published (trace (snd (RegisterGcs env this node_ip_address raylet_socket_name
                                       object_store_socket_name redis_address
                                       redis_port redis_password
                                       node_manager_config w)))
      = published (trace w) ++ [client_info] /\
    ClientTableDataT.resources_total_label client_info
      = ClientTableDataT.resources_total_label template ++ map fst resource_map /\
    ClientTableDataT.resources_total_capacity client_info
      = ClientTableDataT.resources_total_capacity template
        ++ map snd resource_map /\
    (List.length (ClientTableDataT.resources_total_label template)
     = List.length (ClientTableDataT.resources_total_capacity template) ->
     List.length (ClientTableDataT.resources_total_label client_info)
     = List.length (ClientTableDataT.resources_total_capacity client_info) /\
     forall (i : nat) (name : string) (capacity : double),
       nth_error resource_map i = Some (name, capacity) ->
       let index :=
         (List.length (ClientTableDataT.resources_total_label template) + i)%nat in
       nth_error (ClientTableDataT.resources_total_label client_info) index
         = Some name /\
       nth_error (ClientTableDataT.resources_total_capacity client_info) index
         = Some capacity).
Proof.
  intros Hattach template resource_map.
  destruct (RegisterGcs_published w Hattach)
    as (client_info & st & w' & Hrun & _ & _ & _ & Hpub & _ & _ & Hlabel & Hcap).
  exists client_info. rewrite Hrun. cbn [snd].
  fold template in Hlabel, Hcap. fold resource_map in Hlabel, Hcap.
  split; [exact Hpub|]. split; [exact Hlabel|]. split; [exact Hcap|].
  intros Hlen. rewrite Hlabel, Hcap. split.
  - rewrite !length_app, !length_map. now rewrite Hlen.
  - intros i name capacity Hi. split.
    + rewrite nth_error_app2 by lia.
      replace (_ + i - _)%nat with i by lia.
      rewrite nth_error_map, Hi. reflexivity.
    + rewrite Hlen. rewrite nth_error_app2 by lia.
      replace (_ + i - _)%nat with i by lia.
      rewrite nth_error_map, Hi. reflexivity.
Qed.

End Registration.

(** ** Construction *)

Section Construction.

Variable env : Collaborators.
Variables socket_name node_ip_address redis_address : string.
Variable redis_port : Z.
Variable redis_password : string.
Variable node_manager_config : NodeManagerConfig.t.
Variable object_manager_config : ObjectManagerConfig.t.

(** The world once the three accept loops are started from [w]. *)
Lemma accept_loops_started (w : World) :
  (DoAccept ;; DoAcceptObjectManager ;; DoAcceptNodeManager) w =
    (Ok tt,
     {| pending_accepts := pending_accepts w ++ accept_loops;
        connections := connections w;
        trace := trace w ++ map EvAsyncAccept accept_loops |}).
Proof.
  run_world. unfold accept_loops. cbn [map].
  rewrite <- !app_assoc. reflexivity.
Qed.

Lemma RegisterGcs_returns (this : Raylet) (a b c : string) (w : World) :
  exists st w' more,
    RegisterGcs env this a b c redis_address redis_port redis_password
                node_manager_config w = (Ok st, w') /\
    pending_accepts w' = pending_accepts w /\
    connections w' = connections w /\
    trace w' = trace w ++ EvGcsAttach :: more.
Proof.
  unfold RegisterGcs. run_world. cbn.
  destruct (gcs_client_Attach env); cbn;
    [destruct (client_table_Connect env _); cbn;
     [destruct (node_manager_RegisterGcs env); cbn|]|];
    do 3 eexists; rewrite <- ?app_assoc; cbn [app];
    repeat split; reflexivity.
Qed.

(** The constructor, step by step. *)
Lemma Raylet_ctor_run (w : World) :
  let this :=
    member_initializers env socket_name node_manager_config object_manager_config in
  let started :=
    {| pending_accepts := pending_accepts w ++ accept_loops;
       connections := connections w;
       trace := trace w ++ map EvAsyncAccept accept_loops |} in
  exists st registered more,
    RegisterGcs env this node_ip_address socket_name
                (ObjectManagerConfig.store_socket_name object_manager_config)
                redis_address redis_port redis_password node_manager_config
                started = (Ok st, registered) /\
    pending_accepts registered = pending_accepts started /\
    connections registered = connections started /\
    trace registered = trace started ++ EvGcsAttach :: more /\
    Raylet_ctor env socket_name node_ip_address redis_address redis_port
                redis_password node_manager_config object_manager_config w =
      if ok st
      then (Ok this, emit (EvDeadlineTimer 100) registered)
      else (Stop (BadStatus st), registered).
Proof.
  intros this started.
  destruct (RegisterGcs_returns this node_ip_address socket_name
              (ObjectManagerConfig.store_socket_name object_manager_config) started)
    as (st & registered & more & Hrun & Hp & Hc & Ht).
  exists st, registered, more. repeat (split; [assumption|]).
  unfold Raylet_ctor. fold this.
  change (socket_name_ this) with socket_name.
  pose proof (accept_loops_started w) as Hstart. fold started in Hstart.
  unfold bind in Hstart |- *.
  destruct (DoAccept w) as [[[]|f] w1]; [|discriminate].
  destruct (DoAcceptObjectManager w1) as [[[]|f] w2]; [|discriminate].
  rewrite Hstart. unfold RAY_CHECK_OK at 1. unfold bind. rewrite Hrun.
  destruct (ok st); [|reflexivity].
  reflexivity.
Qed.

(** C4. The descriptor published by [RegisterGcs] reports, as the node
    manager port and as the object manager port, the port of the local
    endpoint of the corresponding acceptor, for any raylet object and,
    in particular, for the one the constructor builds, also when the
    configured port is 0 and the operating system picks the port. *)
Theorem published_ports_are_bound_ports :
  gcs_client_Attach env = Status_OK ->
  (forall (this : Raylet) (a b c : string) (w : World),
      exists client_info,
        published (trace (snd (RegisterGcs env this a b c redis_address
                                           redis_port redis_password
                                           node_manager_config w)))
          = published (trace w) ++ [client_info] /\
        ClientTableDataT.node_manager_port client_info
          = port (local_endpoint this node_manager_acceptor_) /\
        ClientTableDataT.object_manager_port client_info
          = port (local_endpoint this object_manager_acceptor_))
  /\
  (forall w : World,
      let constructed :=
        Raylet_ctor env socket_name node_ip_address redis_address redis_port
                    redis_password node_manager_config object_manager_config w in
      let this :=
        member_initializers env socket_name node_manager_config
                            object_manager_config in
      exists client_info,
        published (trace (snd constructed)) = published (trace w) ++ [client_info] /\
        (forall r, fst constructed = Ok r -> r = this) /\
        ClientTableDataT.node_manager_port client_info
          = port (local_endpoint this node_manager_acceptor_) /\
        ClientTableDataT.object_manager_port client_info
          = port (local_endpoint this object_manager_acceptor_) /\
        (NodeManagerConfig.node_manager_port node_manager_config = 0 ->
         ClientTableDataT.node_manager_port client_info
           = os_assigned_port env node_manager_acceptor_) /\
        (ObjectManagerConfig.object_manager_port object_manager_config = 0 ->
         ClientTableDataT.object_manager_port client_info
           = os_assigned_port env object_manager_acceptor_)).
Proof.
  intros Hattach. split.
  - intros this a b c w.
    destruct (RegisterGcs_published env this a b c redis_address redis_port
                redis_password node_manager_config w Hattach)
      as (client_info & st & w' & Hrun & _ & _ & _ & Hpub & Hnm & Hom & _).
    exists client_info. rewrite Hrun. auto.
  - intros w constructed this.
    destruct (Raylet_ctor_run w) as (st & registered & more & Hrun & _ & _ & _ & Hctor).
    fold this in Hrun, Hctor. fold constructed in Hctor.
    match type of Hrun with
    | RegisterGcs _ _ _ _ _ _ _ _ _ ?started = _ =>
        destruct (RegisterGcs_published env this node_ip_address socket_name
                    (ObjectManagerConfig.store_socket_name object_manager_config)
                    redis_address redis_port redis_password node_manager_config
                    started Hattach)
          as (client_info & st' & w' & Hrun' & _ & _ & _ & Hpub & Hnm & Hom & _)
    end.
    rewrite Hrun in Hrun'. inversion Hrun'; subst st' w'. clear Hrun'.
    cbn [trace] in Hpub. rewrite published_app in Hpub.
    assert (Hnone : published (map EvAsyncAccept accept_loops) = []) by reflexivity.
    rewrite Hnone, app_nil_r in Hpub.
    exists client_info. rewrite Hctor.
    split; [|split; [|split; [exact Hnm|split; [exact Hom|split]]]].
    + destruct (ok st); cbn [snd emit trace]; [|exact Hpub].
      rewrite published_app, Hpub. cbn. now rewrite app_nil_r.
    + intros r Hr. destruct (ok st); cbn [fst] in Hr; now inversion Hr.
    + intros Hzero. rewrite Hnm. unfold this. cbn. now rewrite Hzero.
    + intros Hzero. rewrite Hom. unfold this. cbn. now rewrite Hzero.
Qed.

End Construction.

(** The result of the builder on a null-terminated array, with the check
    read on the integers. *)
Lemma GenerateEnumNames_checked (max_size : Z) (fuel : nat) (names : list string)
      (rest : list (option string)) (start_index end_index : Z) :
  0 <= max_size < 2 ^ 63 ->
  int_range end_index ->
  (List.length names < fuel)%nat ->
  size (repeat EmptyMessageType (Z.to_nat start_index) ++ names) <= max_size ->
  GenerateEnumNames max_size fuel (map Some names ++ None :: rest)
                    start_index end_index =
    if size (repeat EmptyMessageType (Z.to_nat start_index) ++ names) - 1
       =? end_index
    then Ok (repeat EmptyMessageType (Z.to_nat start_index) ++ names)
    else Stop (CheckFailed "Message Type mismatch!").
Proof.
  intros Hmax He Hfuel Hroom.
  rewrite (GenerateEnumNames_eval max_size Hmax) by assumption.
  destruct (Z.leb_spec
              (size (repeat EmptyMessageType (Z.to_nat start_index) ++ names))
              max_size) as [_|Hbad]; [|lia].
  rewrite size_check_exact; [|assumption|].
  - rewrite Z.eqb_sym. reflexivity.
  - pose proof (size_nonneg
                  (repeat EmptyMessageType (Z.to_nat start_index) ++ names)).
    lia.
Qed.

(** C9. Bootstrap first builds the node manager name table and then the
    object manager name table; when one of the two builders stops,
    bootstrap stops with it and nothing else has happened. Otherwise the
    three accept loops are started, for the local socket, the object
    manager and the node manager in this order, and only then
    [RegisterGcs] runs, from a world in which the three accepts are
    already pending; when it returns a status that is not ok the process
    aborts on that status, and when it is ok construction completes with
    the two tables. Each builder, on a null-terminated array with fuel
    and room for its names, returns its table when the size of the table
    minus one is the declared [MAX] and fails the check otherwise. *)
Theorem bootstrap_sequence
        (max_size : Z) (protocol object_manager_protocol : ProtocolFamily)
        (env : Collaborators) (fuel : nat)
        (socket_name node_ip_address redis_address : string)
        (redis_port : Z) (redis_password : string)
        (node_manager_config : NodeManagerConfig.t)
        (object_manager_config : ObjectManagerConfig.t) :
  0 <= max_size < 2 ^ 63 ->
  int_range (MessageType_MAX protocol) ->
  int_range (MessageType_MAX object_manager_protocol) ->
  let booted :=
    bootstrap max_size protocol object_manager_protocol env fuel socket_name
              node_ip_address redis_address redis_port redis_password
              node_manager_config object_manager_config in
  let build_node_manager_table :=
    GenerateEnumNames max_size fuel (EnumNamesMessageType protocol)
                      (MessageType_MIN protocol) (MessageType_MAX protocol) in
  let build_object_manager_table :=
    GenerateEnumNames max_size fuel (EnumNamesMessageType object_manager_protocol)
                      (MessageType_MIN object_manager_protocol)
                      (MessageType_MAX object_manager_protocol) in
  let this :=
    member_initializers env socket_name node_manager_config
                        object_manager_config in
  let started :=
    {| pending_accepts := accept_loops;
       connections := [];
       trace := map EvAsyncAccept accept_loops |} in
  match build_node_manager_table with
  | Stop f => booted = (Stop f, initial_world)
  | Ok node_manager_table =>
      match build_object_manager_table with
      | Stop f => booted = (Stop f, initial_world)
      | Ok object_manager_table =>
          exists st registered more,
            RegisterGcs env this node_ip_address socket_name
                        (ObjectManagerConfig.store_socket_name
                           object_manager_config)
                        redis_address redis_port redis_password
                        node_manager_config started = (Ok st, registered) /\
            pending_accepts registered = accept_loops /\
            trace registered
              = map EvAsyncAccept accept_loops ++ EvGcsAttach :: more /\
            booted =
              if ok st
              then (Ok ({| node_manager_message_enum := node_manager_table;
                           object_manager_message_enum := object_manager_table |},
                        this),
                    emit (EvDeadlineTimer 100) registered)
              else (Stop (BadStatus st), registered)
      end
  end
  /\
  (forall names rest,
      EnumNamesMessageType protocol = map Some names ++ None :: rest ->
      (List.length names < fuel)%nat ->
      size (repeat EmptyMessageType (Z.to_nat (MessageType_MIN protocol)) ++ names)
        <= max_size ->
      build_node_manager_table =
        if size (repeat EmptyMessageType (Z.to_nat (MessageType_MIN protocol))
                 ++ names) - 1 =? MessageType_MAX protocol
        then Ok (repeat EmptyMessageType (Z.to_nat (MessageType_MIN protocol))
                 ++ names)
        else Stop (CheckFailed "Message Type mismatch!"))
  /\
  (forall names rest,
      EnumNamesMessageType object_manager_protocol
        = map Some names ++ None :: rest ->
      (List.length names < fuel)%nat ->
      size (repeat EmptyMessageType
                   (Z.to_nat (MessageType_MIN object_manager_protocol)) ++ names)
        <= max_size ->
      build_object_manager_table =
        if size (repeat EmptyMessageType
                        (Z.to_nat (MessageType_MIN object_manager_protocol))
                 ++ names) - 1 =? MessageType_MAX object_manager_protocol
        then Ok (repeat EmptyMessageType
                        (Z.to_nat (MessageType_MIN object_manager_protocol))
                 ++ names)
        else Stop (CheckFailed "Message Type mismatch!")).
Proof.
  intros Hmax Hnm_max Hom_max booted build_node_manager_table
         build_object_manager_table this started.
  split; [|split].
  - unfold booted, bootstrap, static_initialization.
    fold build_node_manager_table build_object_manager_table.
    destruct build_node_manager_table as [nm|f]; [|reflexivity].
    destruct build_object_manager_table as [om|f]; [|reflexivity].
    cbn [obind].
    destruct (Raylet_ctor_run env socket_name node_ip_address redis_address
                redis_port redis_password node_manager_config
                object_manager_config initial_world)
      as (st & registered & more & Hrun & Hp & _ & Ht & Hctor).
    exists st, registered, more. fold this in Hrun, Hctor.
    cbn in Hrun, Hp, Ht. fold started in Hrun.
    split; [exact Hrun|]. split; [exact Hp|]. split; [exact Ht|].
    unfold bind. rewrite Hctor.
    destruct (ok st); reflexivity.
  - intros names rest Hptr Hfuel Hroom. unfold build_node_manager_table.
    rewrite Hptr. now apply GenerateEnumNames_checked.
  - intros names rest Hptr Hfuel Hroom. unfold build_object_manager_table.
    rewrite Hptr. now apply GenerateEnumNames_checked.
Qed.

(** ** Accept handlers and the event loop *)

Lemma AcceptOp_eqb_eq (x y : AcceptOp) : AcceptOp_eqb x y = true -> x = y.
Proof.
  destruct x as [[[] []] []], y as [[[] []] []]; cbn; intros H;
    try discriminate; reflexivity.
Qed.

Lemma take_op_Permutation (op : AcceptOp) (l rest : list AcceptOp) :
  take_op op l = Some rest -> Permutation l (op :: rest).
Proof.
  revert rest; induction l as [|x l IH]; intros rest H; cbn in H.
  - discriminate.
  - destruct (AcceptOp_eqb op x) eqn:Heq.
    + apply AcceptOp_eqb_eq in Heq. inversion H; subst. reflexivity.
    + destruct (take_op op l) as [rest'|]; [|discriminate].
      cbn in H. inversion H; subst rest.
      rewrite (IH rest' eq_refl). apply perm_swap.
Qed.

Lemma armed_Permutation (a : Acceptor) (w : World) :
  Permutation (pending_accepts w) accept_loops -> armed a w = true.
Proof.
  intros Hperm. unfold armed. apply existsb_exists.
  destruct a.
  - exists (acceptor_, socket_, bind_HandleAccept). split; [|reflexivity].
    apply (Permutation_in _ (Permutation_sym Hperm)). cbn. auto.
  - exists (object_manager_acceptor_, object_manager_socket_,
            bind_HandleAcceptObjectManager). split; [|reflexivity].
    apply (Permutation_in _ (Permutation_sym Hperm)). cbn. auto.
  - exists (node_manager_acceptor_, node_manager_socket_,
            bind_HandleAcceptNodeManager). split; [|reflexivity].
    apply (Permutation_in _ (Permutation_sym Hperm)). cbn. auto.
Qed.

Section AcceptHandlers.

Variable protocol : ProtocolFamily.
Variable object_manager_protocol : ProtocolFamily.
Variable globals : Globals.

(** Every handler ends by issuing again the accept it completed. *)
Lemma run_handler_rearms (op : AcceptOp) (error : Z) (w : World) :
  In op accept_loops ->
  exists w',
    run_handler protocol object_manager_protocol globals (snd op) error w
      = (Ok tt, w') /\
    pending_accepts w' = pending_accepts w ++ [op].
Proof.
  intros Hin. cbn in Hin.
  destruct Hin as [<-|[<-|[<-|[]]]]; cbn [snd run_handler];
    unfold HandleAccept, HandleAcceptObjectManager, HandleAcceptNodeManager;
    run_world; try destruct (error =? 0); cbn; eexists; split; reflexivity.
Qed.

Lemma complete_accept_keeps_loops (op : AcceptOp) (error : Z) (w : World) :
  Permutation (pending_accepts w) accept_loops ->
  exists w',
    complete_accept protocol object_manager_protocol globals op error w
      = (Ok tt, w') /\
    Permutation (pending_accepts w') accept_loops.
Proof.
  intros Hperm. unfold complete_accept.
  destruct (take_op op (pending_accepts w)) as [rest|] eqn:Htake.
  - apply take_op_Permutation in Htake.
    assert (Hin : In op accept_loops).
    { apply (Permutation_in _ Hperm). apply (Permutation_in _ (Permutation_sym Htake)).
      now left. }
    destruct (run_handler_rearms op error
                {| pending_accepts := rest; connections := connections w;
                   trace := trace w |} Hin) as (w' & Hrun & Hpending).
    exists w'. split; [exact Hrun|].
    rewrite Hpending. cbn [pending_accepts].
    rewrite <- Hperm, Htake. rewrite Permutation_app_comm. reflexivity.
  - exists w. split; [reflexivity | exact Hperm].
Qed.

Lemma io_service_run_keeps_loops (completions : list (AcceptOp * Z)) :
  forall w,
    Permutation (pending_accepts w) accept_loops ->
    exists w',
      io_service_run protocol object_manager_protocol globals completions w
        = (Ok tt, w') /\
      Permutation (pending_accepts w') accept_loops.
Proof.
  induction completions as [|[op error] completions IH]; intros w Hperm.
  - exists w. split; [reflexivity | exact Hperm].
  - destruct (complete_accept_keeps_loops op error w Hperm) as (w1 & Hstep & Hperm1).
    destruct (IH w1 Hperm1) as (w' & Hrun & Hperm').
    exists w'. split; [|exact Hperm'].
    cbn [io_service_run]. unfold bind. now rewrite Hstep.
Qed.

(** C6. Each of the three accept handlers, whatever the error code of
    the completed accept, ends by issuing the asynchronous accept of its
    own acceptor again; hence, however many accepts complete and with
    whatever error codes, the three acceptors stay armed. *)
Theorem accept_handlers_always_rearm :
  (forall (error : Z) (w : World),
      let w' := snd (HandleAccept protocol globals error w) in
      fst (HandleAccept protocol globals error w) = Ok tt /\
      pending_accepts w'
        = pending_accepts w ++ [(acceptor_, socket_, bind_HandleAccept)] /\
      exists before,
        trace w' = before
                   ++ [EvAsyncAccept (acceptor_, socket_, bind_HandleAccept)])
  /\
  (forall (error : Z) (w : World),
      let w' := snd (HandleAcceptObjectManager object_manager_protocol globals
                                               error w) in
      fst (HandleAcceptObjectManager object_manager_protocol globals error w)
        = Ok tt /\
      pending_accepts w'
        = pending_accepts w
          ++ [(object_manager_acceptor_, object_manager_socket_,
               bind_HandleAcceptObjectManager)] /\
      exists before,
        trace w' = before
                   ++ [EvAsyncAccept (object_manager_acceptor_,
                                      object_manager_socket_,
                                      bind_HandleAcceptObjectManager)])
  /\
  (forall (error : Z) (w : World),
      let w' := snd (HandleAcceptNodeManager protocol globals error w) in
      fst (HandleAcceptNodeManager protocol globals error w) = Ok tt /\
      pending_accepts w'
        = pending_accepts w
          ++ [(node_manager_acceptor_, node_manager_socket_,
               bind_HandleAcceptNodeManager)] /\
      exists before,
        trace w' = before
                   ++ [EvAsyncAccept (node_manager_acceptor_, node_manager_socket_,
                                      bind_HandleAcceptNodeManager)])
  /\
  (forall (completions : list (AcceptOp * Z)) (w : World),
      Permutation (pending_accepts w) accept_loops ->
      exists w',
        io_service_run protocol object_manager_protocol globals completions w
          = (Ok tt, w') /\
        Permutation (pending_accepts w') accept_loops /\
        forall a, armed a w' = true).
Proof.
  split; [|split; [|split]].
  - intros error w. unfold HandleAccept. run_world.
    destruct (error =? 0); cbn; (split; [reflexivity|]); (split; [reflexivity|]);
      eexists; reflexivity.
  - intros error w. unfold HandleAcceptObjectManager. run_world. cbn.
    split; [reflexivity|]. split; [reflexivity|]. eexists; reflexivity.
  - intros error w. unfold HandleAcceptNodeManager. run_world.
    destruct (error =? 0); cbn; (split; [reflexivity|]); (split; [reflexivity|]);
      eexists; reflexivity.
  - intros completions w Hperm.
    destruct (io_service_run_keeps_loops completions w Hperm) as (w' & Hrun & Hperm').
    exists w'. split; [exact Hrun|]. split; [exact Hperm'|].
    intros a. now apply armed_Permutation.
Qed.

(** C7. The handlers of the local acceptor and of the node manager
    acceptor create a connection exactly when the accept succeeded: with
    error code 0 one connection is created, routed to the node manager's
    [ProcessNewClient] and [ProcessClientMessage] (local) or
    [ProcessNewNodeManager] and [ProcessNodeManagerMessage] (network),
    with the node manager name table and disconnect tag; with any other
    error code no connection is created and only the accept is issued
    again. *)
Theorem node_manager_handlers_connect_on_success (error : Z) (w : World) :
  let worker :=
    {| transport := local_stream_protocol;
       client_handler := node_manager_ProcessNewClient;
       message_handler := node_manager_ProcessClientMessage;
       moved_socket := socket_;
       debug_label := "worker";
       message_type_enum_names := node_manager_message_enum globals;
       error_message_type := MessageType_DisconnectClient protocol |} in
  let peer :=
    {| transport := ip_tcp;
       client_handler := node_manager_ProcessNewNodeManager;
       message_handler := node_manager_ProcessNodeManagerMessage;
       moved_socket := node_manager_socket_;
       debug_label := "node manager";
       message_type_enum_names := node_manager_message_enum globals;
       error_message_type := MessageType_DisconnectClient protocol |} in
  HandleAccept protocol globals error w =
    (Ok tt,
     {| pending_accepts :=
          pending_accepts w ++ [(acceptor_, socket_, bind_HandleAccept)];
        connections := connections w ++ (if error =? 0 then [worker] else []);
        trace := trace w
                 ++ (if error =? 0 then [EvCreateConnection worker] else [])
                 ++ [EvAsyncAccept (acceptor_, socket_, bind_HandleAccept)] |})
  /\
  HandleAcceptNodeManager protocol globals error w =
    (Ok tt,
     {| pending_accepts :=
          pending_accepts w
          ++ [(node_manager_acceptor_, node_manager_socket_,
               bind_HandleAcceptNodeManager)];
        connections := connections w ++ (if error =? 0 then [peer] else []);
        trace := trace w
                 ++ (if error =? 0 then [EvCreateConnection peer] else [])
                 ++ [EvAsyncAccept (node_manager_acceptor_, node_manager_socket_,
                                    bind_HandleAcceptNodeManager)] |}).
Proof.
  intros worker peer.
  unfold HandleAccept, HandleAcceptNodeManager. run_world.
  destruct (error =? 0); cbn; rewrite <- ?app_assoc, ?app_nil_r; cbn;
    split; destruct w; reflexivity.
Qed.

(** C8. The handler of the object manager acceptor creates a connection
    for every completed accept, whatever its error code: the connection
    is routed to the object manager's [ProcessNewClient] and
    [ProcessClientMessage], with the object manager name table and
    disconnect tag, and the error code is not looked at. *)
Theorem object_manager_handler_connects_unconditionally (error : Z) (w : World) :
  let transfer :=
    {| transport := ip_tcp;
       client_handler := object_manager_ProcessNewClient;
       message_handler := object_manager_ProcessClientMessage;
       moved_socket := object_manager_socket_;
       debug_label := "object manager";
       message_type_enum_names := object_manager_message_enum globals;
       error_message_type :=
         MessageType_DisconnectClient object_manager_protocol |} in
  HandleAcceptObjectManager object_manager_protocol globals error w =
    (Ok tt,
     {| pending_accepts :=
          pending_accepts w
          ++ [(object_manager_acceptor_, object_manager_socket_,
               bind_HandleAcceptObjectManager)];
        connections := connections w ++ [transfer];
        trace := trace w
                 ++ [EvCreateConnection transfer;
                     EvAsyncAccept (object_manager_acceptor_,
                                    object_manager_socket_,
                                    bind_HandleAcceptObjectManager)] |})
  /\
  HandleAcceptObjectManager object_manager_protocol globals error w
    = HandleAcceptObjectManager object_manager_protocol globals 0 w.
Proof.
  intros transfer. unfold HandleAcceptObjectManager. run_world. cbn.
  rewrite <- app_assoc. split; reflexivity.
Qed.

End AcceptHandlers.

(** ** The model on the sample inputs *)

Lemma lp64_max_size_range : 0 <= lp64_max_size < 2 ^ 63.
Proof. unfold lp64_max_size. split; [lia | reflexivity]. Defined.

Lemma int_range_3 : int_range 3.
Proof. unfold int_range. split; [discriminate | reflexivity]. Defined.

Example static_tables_of_the_samples :
  static_initialization lp64_max_size sample_protocol
                        sample_object_manager_protocol 4 = Ok sample_globals.
Proof. reflexivity. Qed.

Example table_shorter_than_declared :
  GenerateEnumNames lp64_max_size 4 [Some "SubmitTask"; Some "TaskDone"; None] 1 3
  = Stop (CheckFailed "Message Type mismatch!").
Proof. reflexivity. Qed.

Example table_longer_than_declared :
  GenerateEnumNames lp64_max_size 4 (EnumNamesMessageType sample_protocol) 1 2
  = Stop (CheckFailed "Message Type mismatch!").
Proof. reflexivity. Qed.

Example empty_table_with_end_index_minus_one :
  GenerateEnumNames lp64_max_size 1 [None] 0 (-1) = Ok [].
Proof. reflexivity. Qed.

Example bootstrap_of_the_samples :
  let booted :=
    bootstrap lp64_max_size sample_protocol sample_object_manager_protocol
              sample_env 4 "/tmp/x.sock" "127.0.0.1" "127.0.0.1" 6379 ""
              sample_node_manager_config sample_object_manager_config in
  pending_accepts (snd booted) = accept_loops /\
  published (trace (snd booted)) =
    [{| ClientTableDataT.client_id := "client-0";
        ClientTableDataT.node_manager_address := "127.0.0.1";
        ClientTableDataT.raylet_socket_name := "/tmp/x.sock";
        ClientTableDataT.object_store_socket_name := "/tmp/store.sock";
        ClientTableDataT.object_manager_port := 40002;
        ClientTableDataT.node_manager_port := 40001;
        ClientTableDataT.resources_total_label := ["CPU"];
        ClientTableDataT.resources_total_capacity := [four] |}] /\
  trace (snd booted) =
    map EvAsyncAccept accept_loops
    ++ [EvGcsAttach; EvGetLocalClient;
        EvLogDebug "client-0" "127.0.0.1" 40001 40002]
    ++ map EvClientTableConnect (published (trace (snd booted)))
    ++ [EvNodeManagerRegisterGcs; EvDeadlineTimer 100].
Proof. cbv zeta. repeat split. Qed.

Example bootstrap_aborts_when_connect_is_refused :
  let booted :=
    bootstrap lp64_max_size sample_protocol sample_object_manager_protocol
              refusing_env 4 "/tmp/x.sock" "127.0.0.1" "127.0.0.1" 6379 ""
              sample_node_manager_config sample_object_manager_config in
  fst booted = Stop (BadStatus (Status_Error 11 "connect refused")) /\
  pending_accepts (snd booted) = accept_loops /\
  ~ In EvNodeManagerRegisterGcs (trace (snd booted)).
Proof.
  cbv zeta. split; [reflexivity|]. split; [reflexivity|].
  cbn. intros H. repeat (destruct H as [H|H]; [discriminate|]). exact H.
Qed.

Lemma GenerateEnumNames_builds_checked_table_witness :
  0 <= lp64_max_size < 2 ^ 63 /\ int_range 3 /\
  GenerateEnumNames lp64_max_size 4 (EnumNamesMessageType sample_protocol) 1 3
  = Ok ["EmptyMessageType"; "SubmitTask"; "TaskDone"; "DisconnectClient"].
Proof.
  split; [exact lp64_max_size_range|]. split; [exact int_range_3|].
  destruct (GenerateEnumNames_builds_checked_table
              lp64_max_size lp64_max_size_range 4
              (EnumNamesMessageType sample_protocol) 1 3 int_range_3) as [_ H].
  refine (H ["SubmitTask"; "TaskDone"; "DisconnectClient"] [] eq_refl _ _).
  - cbn. lia.
  - discriminate.
Defined.

Lemma GenerateEnumNames_table_indexable_witness :
  nth_error (node_manager_message_enum sample_globals) 0 = Some EmptyMessageType /\
  3 < size (node_manager_message_enum sample_globals).
Proof.
  destruct (GenerateEnumNames_table_indexable
              lp64_max_size lp64_max_size_range 4
              (EnumNamesMessageType sample_protocol) 1 3
              (node_manager_message_enum sample_globals) int_range_3 eq_refl)
    as [Hplaceholder Hbounds].
  split.
  - refine (Hplaceholder 0 _). split; [discriminate | reflexivity].
  - refine (proj1 (Hbounds 3 _)). split; discriminate.
Defined.

Lemma GenerateEnumNames_terminates_witness :
  exists k,
    first_null_index (EnumNamesMessageType sample_protocol) = Some k /\
    k = 3%nat /\
    GenerateEnumNames lp64_max_size 100 (EnumNamesMessageType sample_protocol) 1 3
    = Ok ["EmptyMessageType"; "SubmitTask"; "TaskDone"; "DisconnectClient"] /\
    GenerateEnumNames lp64_max_size 100 (EnumNamesMessageType sample_protocol) 1 3
    = GenerateEnumNames lp64_max_size (S k) (EnumNamesMessageType sample_protocol) 1 3.
Proof.
  destruct (GenerateEnumNames_terminates
              lp64_max_size lp64_max_size_range
              (EnumNamesMessageType sample_protocol) 1 3
              (or_intror (or_intror (or_intror (or_introl eq_refl)))))
    as (k & Hk & Hfuel).
  exists k. split; [exact Hk|].
  cbn in Hk. inversion Hk as [Hk3]. clear Hk. subst k.
  split; [reflexivity|].
  assert (Hlt : (3 < 100)%nat) by lia.
  destruct (Hfuel 100%nat Hlt) as (Hsame & _ & _ & _ & _ & _ & Hreturn).
  split; [|exact Hsame].
  assert (Hroom : Z.of_nat (Z.to_nat 1) + Z.of_nat 3 <= lp64_max_size)
    by discriminate.
  destruct (Hreturn Hroom eq_refl) as (names & _ & Hfirstn & Hgen).
  cbn in Hfirstn.
  destruct names as [|n1 [|n2 [|n3 [|n4 names]]]]; try discriminate.
  inversion Hfirstn; subst n1 n2 n3.
  exact Hgen.
Defined.

Lemma published_ports_are_bound_ports_witness :
  gcs_client_Attach sample_env = Status_OK /\
  exists client_info,
    published
      (trace (snd (Raylet_ctor sample_env "/tmp/x.sock" "127.0.0.1" "127.0.0.1"
                               6379 "" sample_node_manager_config
                               sample_object_manager_config initial_world)))
    = [client_info] /\
    ClientTableDataT.node_manager_port client_info = 40001 /\
    ClientTableDataT.object_manager_port client_info = 40002.
Proof.
  split; [reflexivity|].
  destruct (proj2 (published_ports_are_bound_ports
                     sample_env "/tmp/x.sock" "127.0.0.1" "127.0.0.1" 6379 ""
                     sample_node_manager_config sample_object_manager_config
                     eq_refl) initial_world)
    as (client_info & Hpub & _ & _ & _ & Hnm & Hom).
  exists client_info. split; [exact Hpub|].
  split; [exact (Hnm eq_refl) | exact (Hom eq_refl)].
Defined.

Lemma RegisterGcs_resources_parallel_witness :
  gcs_client_Attach sample_env = Status_OK /\
  exists client_info,
    published
      (trace (snd (RegisterGcs sample_env
                     (member_initializers sample_env "/tmp/x.sock"
                        sample_node_manager_config sample_object_manager_config)
                     "127.0.0.1" "/tmp/x.sock" "/tmp/store.sock" "127.0.0.1" 6379 ""
                     sample_node_manager_config started_world)))
    = [client_info] /\
    ClientTableDataT.resources_total_label client_info = ["CPU"] /\
    ClientTableDataT.resources_total_capacity client_info = [four] /\
    List.length (ClientTableDataT.resources_total_label client_info)
    = List.length (ClientTableDataT.resources_total_capacity client_info).
Proof.
  split; [reflexivity|].
  destruct (RegisterGcs_resources_parallel
              sample_env
              (member_initializers sample_env "/tmp/x.sock"
                 sample_node_manager_config sample_object_manager_config)
              "127.0.0.1" "/tmp/x.sock" "/tmp/store.sock" "127.0.0.1" 6379 ""
              sample_node_manager_config started_world eq_refl)
    as (client_info & Hpub & Hlabel & Hcap & Hparallel).
  exists client_info.
  split; [exact Hpub|]. split; [exact Hlabel|]. split; [exact Hcap|].
  exact (proj1 (Hparallel eq_refl)).
Defined.

Lemma accept_handlers_always_rearm_witness :
  Permutation (pending_accepts started_world) accept_loops /\
  exists w',
    io_service_run sample_protocol sample_object_manager_protocol sample_globals
      [((acceptor_, socket_, bind_HandleAccept), 0);
       ((node_manager_acceptor_, node_manager_socket_,
         bind_HandleAcceptNodeManager), 104);
       ((object_manager_acceptor_, object_manager_socket_,
         bind_HandleAcceptObjectManager), 104);
       ((node_manager_acceptor_, node_manager_socket_,
         bind_HandleAcceptNodeManager), 0)]
      started_world = (Ok tt, w') /\
    armed acceptor_ w' = true /\
    armed object_manager_acceptor_ w' = true /\
    armed node_manager_acceptor_ w' = true.
Proof.
  split; [apply Permutation_refl|].
  destruct (proj2 (proj2 (proj2 (accept_handlers_always_rearm
                                   sample_protocol sample_object_manager_protocol
                                   sample_globals)))
              [((acceptor_, socket_, bind_HandleAccept), 0);
               ((node_manager_acceptor_, node_manager_socket_,
                 bind_HandleAcceptNodeManager), 104);
               ((object_manager_acceptor_, object_manager_socket_,
                 bind_HandleAcceptObjectManager), 104);
               ((node_manager_acceptor_, node_manager_socket_,
                 bind_HandleAcceptNodeManager), 0)]
              started_world (Permutation_refl _))
    as (w' & Hrun & _ & Harmed).
  exists w'. split; [exact Hrun|]. repeat split; apply Harmed.
Defined.

Lemma bootstrap_sequence_witness :
  let booted :=
    bootstrap lp64_max_size sample_protocol sample_object_manager_protocol
              sample_env 4 "/tmp/x.sock" "127.0.0.1" "127.0.0.1" 6379 ""
              sample_node_manager_config sample_object_manager_config in
  fst booted
  = Ok (sample_globals,
        member_initializers sample_env "/tmp/x.sock" sample_node_manager_config
                            sample_object_manager_config) /\
  pending_accepts (snd booted) = accept_loops /\
  firstn 4 (trace (snd booted)) = map EvAsyncAccept accept_loops ++ [EvGcsAttach].
Proof.
  pose proof (bootstrap_sequence
                lp64_max_size sample_protocol sample_object_manager_protocol
                sample_env 4 "/tmp/x.sock" "127.0.0.1" "127.0.0.1" 6379 ""
                sample_node_manager_config sample_object_manager_config
                lp64_max_size_range int_range_3 int_range_3) as H.
  cbv zeta in H. destruct H as (Hseq & Hnm & Hom).
  assert (Hfuel : (3 < 4)%nat) by lia.
  rewrite (Hnm ["SubmitTask"; "TaskDone"; "DisconnectClient"] [] eq_refl Hfuel)
    in Hseq by discriminate.
  rewrite (Hom ["PushRequest"; "PullRequest"; "DisconnectClient"] [] eq_refl Hfuel)
    in Hseq by discriminate.
  destruct Hseq as (st & registered & more & Hrun & _ & _ & Hboot).
  inversion Hrun; subst st registered. clear Hrun.
  cbv zeta. split; [exact (f_equal fst Hboot)|].
  split; [exact (f_equal (fun b => pending_accepts (snd b)) Hboot)|].
  exact (f_equal (fun b => firstn 4 (trace (snd b))) Hboot).
Defined.

(** * Further properties *)

(** ** The table builder at its edges *)

Section ProtocolTableBuilderEdges.

Variable max_size : Z.
Hypothesis max_size_range : 0 <= max_size < 2 ^ 63.

(** The name of a tag in a returned table. *)
Lemma GenerateEnumNames_lookup (fuel : nat) (ptr : list (option string))
      (start_index end_index : Z) (table : vector_string) :
  int_range end_index -> 0 <= start_index ->
  GenerateEnumNames max_size fuel ptr start_index end_index = Ok table ->
  start_index <= end_index + 1 /\
  (forall tag, start_index <= tag <= end_index ->
               exists name,
                 nth_error ptr (Z.to_nat (tag - start_index)) = Some (Some name) /\
                 nth_error table (Z.to_nat tag) = Some name) /\
  nth_error ptr (Z.to_nat (end_index + 1 - start_index)) = Some None.
Proof.
  intros He Hs H.
  destruct (GenerateEnumNames_Ok_inv max_size max_size_range _ _ _ _ _ He H)
    as (names & rest & -> & -> & Hsize).
  unfold size in Hsize. rewrite length_app, repeat_length in Hsize.
  assert (Hlen : Z.of_nat (List.length names) = end_index + 1 - start_index) by lia.
  split; [lia|]. split.
  - intros tag Htag.
    destruct (nth_error names (Z.to_nat (tag - start_index))) as [name|] eqn:Hname.
    + exists name. split.
      * rewrite nth_error_app1 by (rewrite length_map; lia).
        now rewrite nth_error_map, Hname.
      * rewrite nth_error_app2 by (rewrite repeat_length; lia).
        rewrite repeat_length.
        replace (Z.to_nat tag - Z.to_nat start_index)%nat
          with (Z.to_nat (tag - start_index)) by lia.
        exact Hname.
    + apply nth_error_None in Hname. lia.
  - rewrite nth_error_app2 by (rewrite length_map; lia).
    rewrite length_map.
    replace (Z.to_nat (end_index + 1 - start_index) - List.length names)%nat
      with 0%nat by lia.
    reflexivity.
Qed.

(** X2. In a table returned for a non-negative [start_index], the entry
    at a tag between [start_index] and [end_index] is the name the raw
    array holds at position [tag - start_index]; the declared range is not
    empty by more than one and the null entry of the raw array sits right
    after the name of [end_index]. *)
Theorem GenerateEnumNames_names_by_tag
        (fuel : nat) (ptr : list (option string)) (start_index end_index : Z)
        (table : vector_string) :
  int_range end_index -> 0 <= start_index ->
  GenerateEnumNames max_size fuel ptr start_index end_index = Ok table ->
  start_index <= end_index + 1 /\
  (forall tag, start_index <= tag <= end_index ->
               exists name,
                 nth_error ptr (Z.to_nat (tag - start_index)) = Some (Some name) /\
                 nth_error table (Z.to_nat tag) = Some name) /\
  nth_error ptr (Z.to_nat (end_index + 1 - start_index)) = Some None.
Proof. apply GenerateEnumNames_lookup. Qed.

(** X3. With a negative [end_index] the only table [GenerateEnumNames]
    can return is the empty one, for [end_index = -1], no placeholders and
    a raw array that starts with the null entry; and in that case it does
    return it. *)
Theorem GenerateEnumNames_negative_end_index
        (fuel : nat) (ptr : list (option string)) (start_index end_index : Z) :
  int_range end_index -> end_index < 0 ->
  (forall table,
      GenerateEnumNames max_size fuel ptr start_index end_index = Ok table ->
      table = [] /\ end_index = -1 /\ start_index <= 0 /\
      nth_error ptr 0 = Some None)
  /\
  (forall rest,
      end_index = -1 -> start_index <= 0 -> (0 < fuel)%nat ->
      GenerateEnumNames max_size fuel (None :: rest) start_index end_index = Ok []).
Proof.
  intros He Hneg. split.
  - intros table H.
    destruct (GenerateEnumNames_Ok_inv max_size max_size_range _ _ _ _ _ He H)
      as (names & rest & -> & -> & Hsize).
    unfold size in Hsize. rewrite length_app, repeat_length in Hsize.
    assert (Hs : Z.to_nat start_index = 0%nat) by lia.
    assert (Hn : List.length names = 0%nat) by lia.
    rewrite Hs. destruct names; [|discriminate].
    cbn. repeat split; lia.
  - intros rest -> Hs Hfuel.
    rewrite (GenerateEnumNames_eval max_size max_size_range fuel [] rest)
      by (simpl; lia).
    replace (Z.to_nat start_index) with 0%nat by lia. cbn [repeat app].
    change (size []) with 0.
    destruct (Z.leb_spec 0 max_size); [reflexivity | lia].
Qed.

End ProtocolTableBuilderEdges.

(** ** The identity fields of the published descriptor *)

Section PublishedIdentity.

Variable env : Collaborators.
Variables redis_address : string.
Variable redis_port : Z.
Variable redis_password : string.
Variable node_manager_config : NodeManagerConfig.t.

Lemma RegisterGcs_published_identity (this : Raylet)
      (node_ip_address raylet_socket_name object_store_socket_name : string)
      (w : World) :
  gcs_client_Attach env = Status_OK ->
  exists client_info st w',
    RegisterGcs env this node_ip_address raylet_socket_name
                object_store_socket_name redis_address redis_port
                redis_password node_manager_config w = (Ok st, w') /\
    published (trace w') = published (trace w) ++ [client_info] /\
    ClientTableDataT.client_id client_info
      = ClientTableDataT.client_id (client_table_GetLocalClient env) /\
    ClientTableDataT.node_manager_address client_info = node_ip_address /\
    ClientTableDataT.raylet_socket_name client_info = raylet_socket_name /\
    ClientTableDataT.object_store_socket_name client_info
      = object_store_socket_name.
Proof.
  intros Hattach. unfold RegisterGcs. run_world. rewrite Hattach. cbn.
  match goal with
  | |- context [client_table_Connect env ?c] => exists c
  end.
  match goal with
  | |- context [client_table_Connect env (add_resources ?rm ?c)] =>
      destruct (add_resources_fields rm c) as (H1 & H2 & H3 & H4 & _)
  end.
  cbn in H1, H2, H3, H4.
  destruct (client_table_Connect env _) as [|code msg]; cbn.
  - destruct (node_manager_RegisterGcs env); cbn;
      do 2 eexists; (split; [reflexivity|]); cbn;
      rewrite !published_app; cbn; rewrite ?app_nil_r.
    all: repeat split; assumption.
  - do 2 eexists; (split; [reflexivity|]); cbn.
    rewrite !published_app; cbn; rewrite ?app_nil_r.
    repeat split; assumption.
Qed.

(** X4. When the attach succeeds, the descriptor [RegisterGcs] publishes
    keeps the client id of the local client's descriptor and carries the
    node address and the two socket names it was called with; for the
    constructor these are the node IP address, the raylet's own socket
    name and the store socket name of the object manager configuration. *)
Theorem published_descriptor_identity :
  gcs_client_Attach env = Status_OK ->
  (forall (this : Raylet)
          (node_ip_address raylet_socket_name object_store_socket_name : string)
          (w : World),
      exists client_info,
        published (trace (snd (RegisterGcs env this node_ip_address
                                 raylet_socket_name object_store_socket_name
                                 redis_address redis_port redis_password
                                 node_manager_config w)))
          = published (trace w) ++ [client_info] /\
        ClientTableDataT.client_id client_info
          = ClientTableDataT.client_id (client_table_GetLocalClient env) /\
        ClientTableDataT.node_manager_address client_info = node_ip_address /\
        ClientTableDataT.raylet_socket_name client_info = raylet_socket_name /\
        ClientTableDataT.object_store_socket_name client_info
          = object_store_socket_name)
  /\
  (forall (socket_name node_ip_address : string)
          (object_manager_config : ObjectManagerConfig.t) (w : World),
      exists client_info,
        published (trace (snd (Raylet_ctor env socket_name node_ip_address
                                 redis_address redis_port redis_password
                                 node_manager_config object_manager_config w)))
          = published (trace w) ++ [client_info] /\
        ClientTableDataT.client_id client_info
          = ClientTableDataT.client_id (client_table_GetLocalClient env) /\
        ClientTableDataT.node_manager_address client_info = node_ip_address /\
        ClientTableDataT.raylet_socket_name client_info = socket_name /\
        ClientTableDataT.object_store_socket_name client_info
          = ObjectManagerConfig.store_socket_name object_manager_config).
Proof.
  intros Hattach. split.
  - intros this a b c w.
    destruct (RegisterGcs_published_identity this a b c w Hattach)
      as (client_info & st & w' & Hrun & Hpub & Hid).
    exists client_info. rewrite Hrun. split; [exact Hpub | exact Hid].
  - intros socket_name node_ip_address object_manager_config w.
    destruct (Raylet_ctor_run env socket_name node_ip_address redis_address
                redis_port redis_password node_manager_config
                object_manager_config w)
      as (st & registered & more & Hrun & _ & _ & _ & Hctor).
    match type of Hrun with
    | RegisterGcs _ ?this _ _ _ _ _ _ _ ?started = _ =>
        destruct (RegisterGcs_published_identity this node_ip_address socket_name
                    (ObjectManagerConfig.store_socket_name object_manager_config)
                    started Hattach)
          as (client_info & st' & w' & Hrun' & Hpub & Hid)
    end.
    rewrite Hrun in Hrun'. inversion Hrun'; subst st' w'. clear Hrun'.
    cbn [trace] in Hpub. rewrite published_app in Hpub.
    assert (Hnone : published (map EvAsyncAccept accept_loops) = []) by reflexivity.
    rewrite Hnone, app_nil_r in Hpub.
    exists client_info. rewrite Hctor. split; [|exact Hid].
    destruct (ok st); cbn [snd emit trace]; [|exact Hpub].
    rewrite published_app, Hpub. cbn. now rewrite app_nil_r.
Qed.

End PublishedIdentity.

(** ** Connections made by the event loop *)

Lemma AcceptOp_eqb_refl (x : AcceptOp) : AcceptOp_eqb x x = true.
Proof. destruct x as [[[] []] []]; reflexivity. Qed.

Lemma is_accept_loop_In (op : AcceptOp) :
  is_accept_loop op = true <-> In op accept_loops.
Proof.
  unfold is_accept_loop. rewrite existsb_exists. split.
  - intros (x & Hin & Heq). apply AcceptOp_eqb_eq in Heq. now subst x.
  - intros Hin. exists op. split; [exact Hin | apply AcceptOp_eqb_refl].
Qed.

Lemma take_op_of_In (op : AcceptOp) (l : list AcceptOp) :
  In op l -> exists rest, take_op op l = Some rest.
Proof.
  induction l as [|x l IH]; intros Hin; [destruct Hin|].
  cbn. destruct (AcceptOp_eqb op x) eqn:Heq; [now exists l|].
  destruct Hin as [->|Hin]; [now rewrite AcceptOp_eqb_refl in Heq|].
  destruct (IH Hin) as [rest ->]. now exists (x :: rest).
Qed.

Lemma take_op_In (op : AcceptOp) (l rest : list AcceptOp) :
  take_op op l = Some rest -> In op l.
Proof.
  intros H. apply take_op_Permutation in H.
  apply (Permutation_in _ (Permutation_sym H)). now left.
Qed.

Section EventLoop.

Variable protocol : ProtocolFamily.
Variable object_manager_protocol : ProtocolFamily.
Variable globals : Globals.

(** What one handler does to the connections and to the trace. *)
Lemma run_handler_effect (h : AcceptHandler) (error : Z) (w : World) :
  exists w' created events,
    run_handler protocol object_manager_protocol globals h error w = (Ok tt, w') /\
    connections w' = connections w ++ created /\
    trace w' = trace w ++ events /\
    published events = [] /\
    Forall (same_family protocol object_manager_protocol globals) created /\
    map moved_socket created =
      (if (error =? 0) || AcceptHandler_eqb h bind_HandleAcceptObjectManager
       then [match h with
             | bind_HandleAccept => socket_
             | bind_HandleAcceptObjectManager => object_manager_socket_
             | bind_HandleAcceptNodeManager => node_manager_socket_
             end]
       else []).
Proof.
  destruct h; cbn [run_handler];
    unfold HandleAccept, HandleAcceptObjectManager, HandleAcceptNodeManager;
    run_world; try destruct (error =? 0); cbn;
    eexists; eexists; eexists;
    (split; [reflexivity|]); cbn [connections trace];
    (split; [try reflexivity; symmetry; apply app_nil_r|]);
    (split; [rewrite <- ?app_assoc; reflexivity|]);
    (split; [reflexivity|]);
    (split; [|reflexivity]);
    repeat constructor.
Qed.

(** One completion, in any world. *)
Lemma complete_accept_effect (op : AcceptOp) (error : Z) (w : World) :
  exists w' created events,
    complete_accept protocol object_manager_protocol globals op error w
      = (Ok tt, w') /\
    connections w' = connections w ++ created /\
    trace w' = trace w ++ events /\
    published events = [] /\
    Forall (same_family protocol object_manager_protocol globals) created.
Proof.
  unfold complete_accept.
  destruct (take_op op (pending_accepts w)) as [rest|].
  - destruct (run_handler_effect (snd op) error
                {| pending_accepts := rest; connections := connections w;
                   trace := trace w |})
      as (w' & created & events & Hrun & Hc & Ht & Hp & Hf & _).
    exists w', created, events. auto.
  - exists w, [], []. rewrite !app_nil_r. repeat split. constructor.
Qed.

Lemma io_service_run_effect (completions : list (AcceptOp * Z)) :
  forall w,
    exists w' created events,
      io_service_run protocol object_manager_protocol globals completions w
        = (Ok tt, w') /\
      connections w' = connections w ++ created /\
      trace w' = trace w ++ events /\
      published events = [] /\
      Forall (same_family protocol object_manager_protocol globals) created.
Proof.
  induction completions as [|[op error] completions IH]; intros w.
  - exists w, [], []. rewrite !app_nil_r. repeat split. constructor.
  - destruct (complete_accept_effect op error w)
      as (w1 & created1 & events1 & Hstep & Hc1 & Ht1 & Hp1 & Hf1).
    destruct (IH w1) as (w' & created & events & Hrun & Hc & Ht & Hp & Hf).
    exists w', (created1 ++ created), (events1 ++ events).
    cbn [io_service_run]. unfold bind. rewrite Hstep.
    split; [exact Hrun|].
    split; [now rewrite Hc, Hc1, app_assoc|].
    split; [now rewrite Ht, Ht1, app_assoc|].
    split; [unfold published in *; now rewrite flat_map_app, Hp1, Hp|].
    now apply Forall_app.
Qed.

(** X5. Whatever accepts complete, in whatever world, the event loop
    never stops the process, only appends to the connections and to the
    trace, never publishes a descriptor, and every connection it creates
    has callbacks, transport, name table and disconnect tag of one and the
    same subsystem. *)
Theorem event_loop_only_adds_matched_connections
        (completions : list (AcceptOp * Z)) (w : World) :
  exists w' created events,
    io_service_run protocol object_manager_protocol globals completions w
      = (Ok tt, w') /\
    connections w' = connections w ++ created /\
    Forall (same_family protocol object_manager_protocol globals) created /\
    trace w' = trace w ++ events /\
    published (trace w') = published (trace w).
Proof.
  destruct (io_service_run_effect completions w)
    as (w' & created & events & Hrun & Hc & Ht & Hp & Hf).
  exists w', created, events.
  split; [exact Hrun|]. split; [exact Hc|]. split; [exact Hf|].
  split; [exact Ht|].
  rewrite Ht. unfold published in *. now rewrite flat_map_app, Hp, app_nil_r.
Qed.

(** One completion, when the three accepts of the raylet are pending. *)
Lemma complete_accept_creates (op : AcceptOp) (error : Z) (w : World) :
  Permutation (pending_accepts w) accept_loops ->
  exists w' created,
    complete_accept protocol object_manager_protocol globals op error w
      = (Ok tt, w') /\
    Permutation (pending_accepts w') accept_loops /\
    connections w' = connections w ++ created /\
    map moved_socket created =
      (if creates_connection (op, error) then [snd (fst op)] else []).
Proof.
  intros Hperm.
  destruct (complete_accept_keeps_loops protocol object_manager_protocol globals
              op error w Hperm) as (w' & Hstep & Hperm').
  unfold creates_connection. cbn [fst snd].
  destruct (is_accept_loop op) eqn:Hloop.
  - apply is_accept_loop_In in Hloop.
    assert (Hpending : In op (pending_accepts w))
      by (apply (Permutation_in _ (Permutation_sym Hperm)); exact Hloop).
    destruct (take_op_of_In op _ Hpending) as [rest Htake].
    unfold complete_accept in Hstep. rewrite Htake in Hstep.
    destruct (run_handler_effect (snd op) error
                {| pending_accepts := rest; connections := connections w;
                   trace := trace w |})
      as (w1 & created & events & Hrun & Hc & _ & _ & _ & Hsockets).
    rewrite Hrun in Hstep. inversion Hstep; subst w1.
    exists w', created.
    split; [unfold complete_accept; now rewrite Htake|].
    split; [exact Hperm'|]. split; [exact Hc|].
    rewrite Hsockets. cbn [andb].
    cbn in Hloop. destruct Hloop as [<-|[<-|[<-|[]]]]; reflexivity.
  - assert (Hnone : take_op op (pending_accepts w) = None).
    { destruct (take_op op (pending_accepts w)) as [rest|] eqn:Htake; [|reflexivity].
      apply take_op_In in Htake.
      apply (Permutation_in _ Hperm) in Htake.
      apply is_accept_loop_In in Htake. congruence. }
    exists w, []. unfold complete_accept. rewrite Hnone.
    rewrite app_nil_r. auto.
Qed.

(** X6. While the three accepts of the raylet are pending, the event loop
    creates one connection for each completed accept that succeeded or
    belongs to the object manager acceptor, and for no other completion;
    the connections are created in the order of the completions, each on
    the staging socket of its accept. *)
Theorem event_loop_connections_follow_completions
        (completions : list (AcceptOp * Z)) :
  forall w,
    Permutation (pending_accepts w) accept_loops ->
    exists w' created,
      io_service_run protocol object_manager_protocol globals completions w
        = (Ok tt, w') /\
      Permutation (pending_accepts w') accept_loops /\
      connections w' = connections w ++ created /\
      map moved_socket created
        = map (fun completion : AcceptOp * Z => snd (fst (fst completion)))
              (filter creates_connection completions).
Proof.
  induction completions as [|[op error] completions IH]; intros w Hperm.
  - exists w, []. rewrite app_nil_r. auto.
  - destruct (complete_accept_creates op error w Hperm)
      as (w1 & created1 & Hstep & Hperm1 & Hc1 & Hs1).
    destruct (IH w1 Hperm1) as (w' & created & Hrun & Hperm' & Hc & Hs).
    exists w', (created1 ++ created).
    cbn [io_service_run]. unfold bind. rewrite Hstep.
    split; [exact Hrun|]. split; [exact Hperm'|].
    split; [now rewrite Hc, Hc1, app_assoc|].
    rewrite map_app, Hs1, Hs. cbn [filter].
    destruct (creates_connection (op, error)); reflexivity.
Qed.

End EventLoop.

(** ** From bootstrap to the event loop *)

(** X7. When bootstrap completes, no connection exists yet and exactly
    the three accepts are pending; from then on, whatever accepts complete
    and with whatever error codes, the event loop keeps running with the
    three acceptors armed and publishes no further descriptor. *)
Theorem booted_raylet_keeps_accepting
        (max_size : Z) (protocol object_manager_protocol : ProtocolFamily)
        (env : Collaborators) (fuel : nat)
        (socket_name node_ip_address redis_address : string)
        (redis_port : Z) (redis_password : string)
        (node_manager_config : NodeManagerConfig.t)
        (object_manager_config : ObjectManagerConfig.t)
        (globals : Globals) (this : Raylet) (w : World) :
  bootstrap max_size protocol object_manager_protocol env fuel socket_name
            node_ip_address redis_address redis_port redis_password
            node_manager_config object_manager_config
    = (Ok (globals, this), w) ->
  connections w = [] /\
  pending_accepts w = accept_loops /\
  forall completions : list (AcceptOp * Z),
    exists w',
      io_service_run protocol object_manager_protocol globals completions w
        = (Ok tt, w') /\
      (forall a, armed a w' = true) /\
      published (trace w') = published (trace w).
Proof.
  intros Hboot. unfold bootstrap in Hboot.
  destruct (static_initialization max_size protocol object_manager_protocol fuel)
    as [g|f]; [|discriminate].
  destruct (Raylet_ctor_run env socket_name node_ip_address redis_address redis_port
              redis_password node_manager_config object_manager_config initial_world)
    as (st & registered & more & _ & Hp & Hc & _ & Hctor).
  unfold bind in Hboot. rewrite Hctor in Hboot.
  destruct (ok st); [|discriminate].
  cbn in Hboot. inversion Hboot; subst g this w. clear Hboot.
  cbn in Hp, Hc. cbn [emit connections pending_accepts].
  split; [exact Hc|]. split; [exact Hp|].
  intros completions.
  set (w := {| pending_accepts := pending_accepts registered;
               connections := connections registered;
               trace := trace registered ++ [EvDeadlineTimer 100] |}).
  assert (Hperm : Permutation (pending_accepts w) accept_loops)
    by (cbn; rewrite Hp; apply Permutation_refl).
  destruct (io_service_run_keeps_loops protocol object_manager_protocol globals
              completions w Hperm) as (w' & Hrun & Hperm').
  destruct (io_service_run_effect protocol object_manager_protocol globals
              completions w) as (w'' & created & events & Hrun' & _ & Ht & Hpub & _).
  rewrite Hrun in Hrun'. inversion Hrun'; subst w''.
  exists w'. split; [exact Hrun|]. split.
  - intros a. now apply armed_Permutation.
  - rewrite Ht. unfold published in *. now rewrite flat_map_app, Hpub, app_nil_r.
Qed.

(** X8. When the static tables were built for protocol families whose
    [DisconnectClient] tag lies between a non-negative [MIN] and [MAX],
    the disconnect tag of every connection the event loop creates indexes
    an entry of that connection's name table. *)
Theorem connections_name_their_disconnect_tag
        (max_size : Z) (protocol object_manager_protocol : ProtocolFamily)
        (fuel : nat) (globals : Globals)
        (completions : list (AcceptOp * Z)) (w : World) :
  0 <= max_size < 2 ^ 63 ->
  static_initialization max_size protocol object_manager_protocol fuel
    = Ok globals ->
  int_range (MessageType_MAX protocol) ->
  0 <= MessageType_MIN protocol <= MessageType_DisconnectClient protocol ->
  MessageType_DisconnectClient protocol <= MessageType_MAX protocol ->
  int_range (MessageType_MAX object_manager_protocol) ->
  0 <= MessageType_MIN object_manager_protocol
    <= MessageType_DisconnectClient object_manager_protocol ->
  MessageType_DisconnectClient object_manager_protocol
    <= MessageType_MAX object_manager_protocol ->
  Forall disconnect_tag_named (connections w) ->
  exists w',
    io_service_run protocol object_manager_protocol globals completions w
      = (Ok tt, w') /\
    Forall disconnect_tag_named (connections w').
Proof.
  intros Hmax Hstatic Hnm_max Hnm_min Hnm_tag Hom_max Hom_min Hom_tag Hold.
  unfold static_initialization in Hstatic.
  destruct (GenerateEnumNames max_size fuel (EnumNamesMessageType protocol) _ _)
    as [nm|] eqn:Hnm; [|discriminate].
  destruct (GenerateEnumNames max_size fuel
              (EnumNamesMessageType object_manager_protocol) _ _)
    as [om|] eqn:Hom; [|discriminate].
  cbn [obind] in Hstatic. inversion Hstatic; subst globals. clear Hstatic.
  destruct (GenerateEnumNames_lookup max_size Hmax _ _ _ _ _ Hnm_max
              (proj1 Hnm_min) Hnm) as (_ & Hnm_names & _).
  destruct (GenerateEnumNames_lookup max_size Hmax _ _ _ _ _ Hom_max
              (proj1 Hom_min) Hom) as (_ & Hom_names & _).
  destruct (Hnm_names (MessageType_DisconnectClient protocol)
              (conj (proj2 Hnm_min) Hnm_tag)) as (nm_name & _ & Hnm_name).
  destruct (Hom_names (MessageType_DisconnectClient object_manager_protocol)
              (conj (proj2 Hom_min) Hom_tag)) as (om_name & _ & Hom_name).
  destruct (io_service_run_effect protocol object_manager_protocol
              {| node_manager_message_enum := nm;
                 object_manager_message_enum := om |} completions w)
    as (w' & created & events & Hrun & Hc & _ & _ & Hfamily).
  exists w'. split; [exact Hrun|].
  rewrite Hc. apply Forall_app. split; [exact Hold|].
  apply (Forall_impl _ (P := same_family protocol object_manager_protocol
                                 {| node_manager_message_enum := nm;
                                    object_manager_message_enum := om |}));
    [|exact Hfamily].
  intros c Hc'. unfold same_family in Hc'. unfold disconnect_tag_named.
  destruct (message_handler c); destruct Hc' as (_ & _ & -> & ->); cbn.
  - now exists nm_name.
  - now exists nm_name.
  - now exists om_name.
Qed.

(** ** The further properties on the sample inputs *)

Lemma GenerateEnumNames_names_by_tag_witness :
  exists name,
    nth_error (EnumNamesMessageType sample_protocol) 2 = Some (Some name) /\
    nth_error (node_manager_message_enum sample_globals) 3 = Some name.
Proof.
  refine (proj1 (proj2 (GenerateEnumNames_names_by_tag
                          lp64_max_size lp64_max_size_range 4
                          (EnumNamesMessageType sample_protocol) 1 3
                          (node_manager_message_enum sample_globals)
                          int_range_3 _ eq_refl)) 3 _).
  - discriminate.
  - split; discriminate.
Defined.

Lemma int_range_minus_1 : int_range (-1).
Proof. unfold int_range. split; [discriminate | reflexivity]. Defined.

Lemma GenerateEnumNames_negative_end_index_witness :
  GenerateEnumNames lp64_max_size 1 [None] 0 (-1) = Ok [].
Proof.
  refine (proj2 (GenerateEnumNames_negative_end_index
                   lp64_max_size lp64_max_size_range 1 [None] 0 (-1)
                   int_range_minus_1 _) [] eq_refl _ _).
  - reflexivity.
  - discriminate.
  - lia.
Defined.

Lemma published_descriptor_identity_witness :
  exists client_info,
    published
      (trace (snd (Raylet_ctor sample_env "/tmp/x.sock" "127.0.0.1" "127.0.0.1"
                               6379 "" sample_node_manager_config
                               sample_object_manager_config initial_world)))
    = [client_info] /\
    ClientTableDataT.client_id client_info = "client-0" /\
    ClientTableDataT.node_manager_address client_info = "127.0.0.1" /\
    ClientTableDataT.raylet_socket_name client_info = "/tmp/x.sock" /\
    ClientTableDataT.object_store_socket_name client_info = "/tmp/store.sock".
Proof.
  exact (proj2 (published_descriptor_identity
                  sample_env "127.0.0.1" 6379 "" sample_node_manager_config
                  eq_refl)
               "/tmp/x.sock" "127.0.0.1" sample_object_manager_config
               initial_world).
Defined.

Lemma event_loop_connections_follow_completions_witness :
  exists w' created,
    io_service_run sample_protocol sample_object_manager_protocol sample_globals
                   sample_completions started_world = (Ok tt, w') /\
    connections w' = created /\
    map moved_socket created
    = [socket_; object_manager_socket_; node_manager_socket_].
Proof.
  destruct (event_loop_connections_follow_completions
              sample_protocol sample_object_manager_protocol sample_globals
              sample_completions started_world (Permutation_refl _))
    as (w' & created & Hrun & _ & Hc & Hs).
  exists w', created. split; [exact Hrun|]. split; [exact Hc | exact Hs].
Defined.

Lemma booted_raylet_keeps_accepting_witness :
  exists w',
    io_service_run
      sample_protocol sample_object_manager_protocol sample_globals
      sample_completions
      (snd (bootstrap lp64_max_size sample_protocol
                      sample_object_manager_protocol sample_env 4
                      "/tmp/x.sock" "127.0.0.1" "127.0.0.1" 6379 ""
                      sample_node_manager_config sample_object_manager_config))
    = (Ok tt, w') /\
    forall a, armed a w' = true.
Proof.
  destruct (proj2 (proj2 (booted_raylet_keeps_accepting
                            lp64_max_size sample_protocol
                            sample_object_manager_protocol sample_env 4
                            "/tmp/x.sock" "127.0.0.1" "127.0.0.1" 6379 ""
                            sample_node_manager_config sample_object_manager_config
                            _ _ _ eq_refl)) sample_completions)
    as (w' & Hrun & Harmed & _).
  exists w'. split; [exact Hrun | exact Harmed].
Defined.

Lemma connections_name_their_disconnect_tag_witness :
  exists w',
    io_service_run sample_protocol sample_object_manager_protocol sample_globals
                   sample_completions started_world = (Ok tt, w') /\
    Forall disconnect_tag_named (connections w').
Proof.
  refine (connections_name_their_disconnect_tag
            lp64_max_size sample_protocol sample_object_manager_protocol 4
            sample_globals sample_completions started_world
            lp64_max_size_range eq_refl int_range_3 _ _ int_range_3 _ _ _).
  - split; discriminate.
  - discriminate.
  - split; discriminate.
  - discriminate.
  - constructor.
Defined.
